(** * OrbitIQ backend: TLE derivation engine and Space-Track sync jobs

    A shallow embedding of the orbital-derivation functions
    ([populateDerived], [calculateDerived], [calculateDerivedParams]), the
    Space-Track session manager and the TLE sync jobs, together with the
    properties the design document states about them.

    JavaScript numbers are IEEE-754 binary64 values.  They are modelled by
    the executable specification [spec_float] of the standard library
    (precision 53, infinite exponent 1024), so that every function below
    can be evaluated on concrete TLE lines. *)

From Stdlib Require Import ZArith List String Ascii Bool Lia.
From Stdlib Require Import Floats.SpecFloat.
From Equations Require Import Equations.
Import ListNotations.

Local Open Scope string_scope.
Local Open Scope list_scope.
Local Open Scope Z_scope.

(** ** The JavaScript runtime: numbers *)

Module JS.

Definition number := spec_float.

Definition prec : Z := 53.
Definition emax : Z := 1024.

Definition NaN : number := S754_nan.

Definition add : number -> number -> number := SFadd prec emax.
Definition sub : number -> number -> number := SFsub prec emax.
Definition mul : number -> number -> number := SFmul prec emax.
Definition div : number -> number -> number := SFdiv prec emax.

(** [x < y] and [x <= y]: false as soon as one side is NaN. *)
Definition less (x y : number) : bool := SFltb x y.
Definition less_eq (x y : number) : bool := SFleb x y.

Definition isNaN (x : number) : bool :=
  match x with S754_nan => true | _ => false end.

Definition isFinite (x : number) : bool :=
  match x with
  | S754_zero _ | S754_finite _ _ _ => true
  | _ => false
  end.

(** ToBoolean on a number: NaN, +0 and -0 are falsy. *)
Definition truthy (x : number) : bool :=
  match x with
  | S754_nan | S754_zero _ => false
  | _ => true
  end.

(** The number nearest to the integer [n] (ties to even). *)
Definition of_Z (n : Z) : number := binary_normalize prec emax n 0 false.

(** The number nearest to [(-1)^s * n / d] for [n >= 0] and [d > 0]. *)
Definition of_ratio (s : bool) (n d : Z) : number :=
  if n =? 0 then S754_zero s else
  let k := Z.max 1100 (Z.log2 d + 64 - Z.log2 n) in
  let '(q, r) := Z.div_eucl (Z.shiftl n k) d in
  binary_round_aux prec emax s q (- k) (new_location d r).

(** Decimal digits of a natural number, most significant first.  The fuel
    bounds the number of digits; [Z.to_nat (Z.log2 n) + 1] always suffices. *)
Fixpoint digits_fuel (fuel : nat) (n : Z) (acc : list Z) : list Z :=
  match fuel with
  | O => acc
  | S fuel' =>
      if n <? 10 then n :: acc
      else digits_fuel fuel' (n / 10) (n mod 10 :: acc)
  end.

Definition digits (n : Z) : list Z :=
  digits_fuel (S (Z.to_nat (Z.log2 n))) n [].

Definition ndigits (n : Z) : Z := Z.of_nat (List.length (digits n)).

(** The number denoted by the decimal numeral [(-1)^s * m * 10^e], [m >= 0]:
    the mathematical value rounded to nearest, ties to even. *)
Definition of_decimal (s : bool) (m e : Z) : number :=
  if m =? 0 then S754_zero s
  else if 310 <? ndigits m + e then S754_infinity s
  else if ndigits m + e <? -330 then S754_zero s
  else if 0 <=? e then
    binary_normalize prec emax ((if s then -1 else 1) * (m * 10 ^ e)) 0 s
  else of_ratio s m (10 ^ (- e)).

(** The integer [floor (|x| * 10^f + 1/2)] for a finite [x]. *)
Definition scaled_round_half_up (x : number) (f : Z) : Z :=
  match x with
  | S754_finite _ m e =>
      if 0 <=? e then Zpos m * 2 ^ e * 10 ^ f
      else (2 * Zpos m * 10 ^ f + 2 ^ (- e)) / 2 ^ (1 - e)
  | _ => 0
  end.

(** Truncation toward zero of a finite number (ToIntegerOrInfinity). *)
Definition trunc_Z (x : number) : Z :=
  match x with
  | S754_finite s m e =>
      let a := if 0 <=? e then Zpos m * 2 ^ e else Zpos m / 2 ^ (- e) in
      if s then - a else a
  | _ => 0
  end.

(** Floor of a finite number, as an integer. *)
Definition floor_Z (x : number) : Z :=
  match x with
  | S754_finite s m e =>
      if 0 <=? e then (if s then -1 else 1) * (Zpos m * 2 ^ e)
      else (if s then Zneg m else Zpos m) / 2 ^ (- e)
  | _ => 0
  end.

(** Math.floor *)
Definition Math_floor (x : number) : number :=
  match x with
  | S754_finite s _ _ =>
      let n := floor_Z x in
      if n =? 0 then S754_zero s else of_Z n
  | _ => x
  end.

(** Math.round: the integer nearest to [x], ties toward +Infinity. *)
Definition Math_round (x : number) : number :=
  match x with
  | S754_finite s m e =>
      if 0 <=? e then x
      else
        let n := (2 * (if s then Zneg m else Zpos m) + 2 ^ (- e)) / 2 ^ (1 - e) in
        if n =? 0 then S754_zero s else of_Z n
  | _ => x
  end.

(** Math.abs *)
Definition Math_abs : number -> number := SFabs.

(** Math.PI, the double 0x400921FB54442D18. *)
Definition Math_PI : number := S754_finite false 7074237752028440 (-51).

(** Math.pow(x, 2).  The runtime's pow returns [x * x] for the exponent 2,
    the only exponent the program uses. *)
Definition Math_pow2 (x : number) : number := mul x x.

(** Integer cube root: the largest [r] with [r^3 <= n], found bit by bit
    from bit [k] downward. *)
Fixpoint icbrt_bits (k : nat) (n r : Z) : Z :=
  match k with
  | O => r
  | S k' =>
      let c := r + 2 ^ Z.of_nat k' in
      icbrt_bits k' n (if c * c * c <=? n then c else r)
  end.

Definition icbrt (n : Z) : Z :=
  icbrt_bits (S (Z.to_nat (Z.log2 n / 3))) n 0.

(** Math.cbrt.  ECMAScript leaves the result implementation-approximated;
    it is modelled by the correctly rounded cube root. *)
Definition Math_cbrt (x : number) : number :=
  match x with
  | S754_finite s m e =>
      (* scale by 2^(3t) so that the root carries at least 60 bits *)
      let t := 60 - e / 3 in
      let n := Z.shiftl (Zpos m) (e + 3 * t) in
      let q := icbrt n in
      (* the sticky bit is carried by one extra low-order bit *)
      let q2 := 2 * q + (if q * q * q =? n then 0 else 1) in
      binary_normalize prec emax ((if s then -1 else 1) * q2) (- t - 1) s
  | _ => x
  end.

(** [x % y] for finite [x] and non-zero finite [y]: the exact remainder of
    the truncated division, with the sign of the dividend. *)
Definition rem (x y : number) : number :=
  match x, y with
  | S754_nan, _ | _, S754_nan => NaN
  | S754_infinity _, _ => NaN
  | _, S754_zero _ => NaN
  | S754_zero _, _ => x
  | S754_finite _ _ _, S754_infinity _ => x
  | S754_finite sx mx ex, S754_finite _ my ey =>
      let ez := Z.min ex ey in
      let a := Zpos mx * 2 ^ (ex - ez) in
      let b := Zpos my * 2 ^ (ey - ez) in
      let r := Z.rem a b in
      if r =? 0 then S754_zero sx
      else binary_normalize prec emax (if sx then - r else r) ez sx
  end.

(** ** The JavaScript runtime: strings

    Strings are sequences of code units in the range U+0000..U+00FF, which
    covers the ASCII text of element sets. *)

Definition code (c : ascii) : Z := Z.of_N (N_of_ascii c).

(** White space and line terminators (StrWhiteSpaceChar) below U+0100:
    TAB, LF, VT, FF, CR, SP and NBSP. *)
Definition is_ws (c : ascii) : bool :=
  let n := code c in
  ((9 <=? n) && (n <=? 13)) || (n =? 32) || (n =? 160).

Definition is_digit (c : ascii) : bool :=
  let n := code c in (48 <=? n) && (n <=? 57).

Definition digit_val (c : ascii) : Z := code c - 48.

Definition digit_char (d : Z) : ascii := ascii_of_N (Z.to_N (d + 48)).

Fixpoint trimStart (s : string) : string :=
  match s with
  | String c r => if is_ws c then trimStart r else s
  | EmptyString => s
  end.

Definition rev_string (s : string) : string :=
  string_of_list_ascii (List.rev (list_ascii_of_string s)).

Definition trimEnd (s : string) : string :=
  rev_string (trimStart (rev_string s)).

(** String.prototype.trim *)
Definition trim (s : string) : string := trimEnd (trimStart s).

(** [s.slice(a, b)] for constant bounds [0 <= a <= b]. *)
Definition slice (a b : nat) (s : string) : string :=
  String.substring a (b - a) s.

(** [s.replace(c, r)] for a one-character pattern: only the first
    occurrence is replaced. *)
Fixpoint replace (c : ascii) (r : string) (s : string) : string :=
  match s with
  | EmptyString => EmptyString
  | String d t =>
      if Ascii.eqb c d then (r ++ t)%string else String d (replace c r t)
  end.

(** String.prototype.startsWith *)
Definition startsWith (p s : string) : bool := String.prefix p s.

(** [s.split(c)] for a one-character separator; never returns []. *)
Fixpoint split (c : ascii) (s : string) : list string :=
  match s with
  | EmptyString => [EmptyString]
  | String d t =>
      if Ascii.eqb c d then EmptyString :: split c t
      else
        match split c t with
        | w :: ws => String d w :: ws
        | [] => [String d EmptyString]
        end
  end.

(** ToBoolean on a string: only the empty string is falsy. *)
Definition nonempty (s : string) : bool :=
  match s with EmptyString => false | _ => true end.

(** ToBoolean on a value that is either a string or undefined/null. *)
Definition present (v : option string) : bool :=
  match v with Some s => nonempty s | None => false end.

(** Reads the longest run of decimal digits at the head of [s]: returns
    the value accumulated on top of [acc], the number of digits read and
    the remaining text. *)
Fixpoint read_digits (s : string) (acc cnt : Z) : Z * Z * string :=
  match s with
  | String c r =>
      if is_digit c then read_digits r (10 * acc + digit_val c) (cnt + 1)
      else (acc, cnt, s)
  | EmptyString => (acc, cnt, s)
  end.

Definition read_sign (s : string) : bool * string :=
  match s with
  | String c r =>
      if Ascii.eqb c "-" then (true, r)
      else if Ascii.eqb c "+" then (false, r)
      else (false, s)
  | EmptyString => (false, s)
  end.

(** The value of an optional ExponentPart at the head of [s]; an "e" that
    is not followed by digits belongs to no numeral and counts as 0. *)
Definition read_exponent (s : string) : Z :=
  match s with
  | String c r =>
      if Ascii.eqb c "e" || Ascii.eqb c "E" then
        let '(sg, r') := read_sign r in
        let '(v, n, _) := read_digits r' 0 0 in
        if n =? 0 then 0 else if sg then - v else v
      else 0
  | EmptyString => 0
  end.

(** The global parseFloat: skips leading white space, then converts the
    longest prefix that is a StrDecimalLiteral; NaN when there is none. *)
Definition parseFloat (input : string) : number :=
  let '(sg, u) := read_sign (trimStart input) in
  if String.prefix "Infinity" u then S754_infinity sg
  else
    let '(ip, ni, r1) := read_digits u 0 0 in
    let '(m, nf, r2) :=
      match r1 with
      | String c r => if Ascii.eqb c "." then read_digits r ip 0 else (ip, 0, r1)
      | EmptyString => (ip, 0, r1)
      end in
    if ni + nf =? 0 then NaN
    else of_decimal sg m (read_exponent r2 - nf).

Definition hex_val (c : ascii) : option Z :=
  let n := code c in
  if (48 <=? n) && (n <=? 57) then Some (n - 48)
  else if (97 <=? n) && (n <=? 102) then Some (n - 87)
  else if (65 <=? n) && (n <=? 70) then Some (n - 55)
  else None.

Fixpoint read_hex (s : string) (acc cnt : Z) : Z * Z :=
  match s with
  | String c r =>
      match hex_val c with
      | Some d => read_hex r (16 * acc + d) (cnt + 1)
      | None => (acc, cnt)
      end
  | EmptyString => (acc, cnt)
  end.

(** The global parseInt, called without a radix: radix 10, or 16 after a
    "0x" prefix; NaN when no digit follows the optional sign. *)
Definition parseInt (input : string) : number :=
  let '(sg, u) := read_sign (trimStart input) in
  if String.prefix "0x" u || String.prefix "0X" u then
    let '(v, n) := read_hex (String.substring 2 (String.length u) u) 0 0 in
    if n =? 0 then NaN else of_decimal sg v 0
  else
    let '(v, n, _) := read_digits u 0 0 in
    if n =? 0 then NaN else of_decimal sg v 0.

Definition string_of_digits (ds : list Z) : string :=
  string_of_list_ascii (List.map digit_char ds).

(** Shortest decimal numeral that reads back as the integer-valued number
    [x] of value [X] with [nd] digits: tries [k = 1, 2, ...] significant
    digits and returns the significand and its digit count [n]. *)
Fixpoint shortest_digits (fuel : nat) (k : Z) (x : number) (X nd : Z) : Z * Z :=
  let p := 10 ^ (nd - k) in
  let lo := X / p in
  let hi := lo + 1 in
  let ok c := SFeqb (of_Z (c * p)) x in
  let norm c := if c =? 10 ^ k then (10 ^ (k - 1), nd + 1) else (c, nd) in
  match fuel with
  | O => (lo, nd)
  | S fuel' =>
      if ok lo && ok hi then
        (if X - lo * p <? hi * p - X then (lo, nd)
         else if hi * p - X <? X - lo * p then norm hi
         else if Z.even lo then (lo, nd) else norm hi)
      else if ok lo then (lo, nd)
      else if ok hi then norm hi
      else shortest_digits fuel' (k + 1) x X nd
  end.

(** Number::toString for a finite [x >= 1e21]: exponential notation. *)
Definition toString_large (x : number) : string :=
  match x with
  | S754_finite _ m e =>
      let X := Zpos m * 2 ^ e in
      let '(c, n) := shortest_digits 17 1 x X (ndigits X) in
      let ds := string_of_digits (digits c) in
      let ex := string_of_digits (digits (n - 1)) in
      match ds with
      | String d EmptyString => String d ("e+" ++ ex)
      | String d r => String d ("." ++ r ++ "e+" ++ ex)
      | EmptyString => EmptyString
      end
  | _ => EmptyString
  end.

Fixpoint zeros (n : nat) : string :=
  match n with
  | O => EmptyString
  | S n' => String "0" (zeros n')
  end.

(** Number.prototype.toFixed with [f] fraction digits. *)
Definition toFixed (x : number) (f : nat) : string :=
  match x with
  | S754_nan => "NaN"
  | S754_infinity false => "Infinity"
  | S754_infinity true => "-Infinity"
  | _ =>
      let s := if less x (S754_zero false) then "-" else EmptyString in
      if less_eq (of_decimal false 1 21) (Math_abs x)
      then s ++ toString_large (Math_abs x)
      else
        let m := string_of_digits (digits (scaled_round_half_up x (Z.of_nat f))) in
        match f with
        | O => s ++ m
        | _ =>
            let m' := zeros (S f - String.length m) ++ m in
            let k := String.length m' in
            s ++ String.substring 0 (k - f) m' ++ "." ++ String.substring (k - f) f m'
        end
  end%string.

(** A numeric literal of the source text denotes the number its decimal
    numeral rounds to. *)
Definition lit (s : string) : number := parseFloat s.

End JS.

Import JS.

(** ** The derivation engine

    [populateDerived] is the shared parser (scripts/populateDerived.js,
    "SHARED TLE PARSER FOR PRODUCTION"); [calculateDerived] is the copy kept
    by the one-time backfill script and by the multi-tenant sync job; the
    cron sync job carries a third copy, [calculateDerived_cron].  The
    copies share every line after the mean-motion guard. *)

Module Derive.

Record Derived : Type := mkDerived {
  inclination : number;
  eccentricity : number;
  mean_motion : number;
  semi_major_axis_km : number;
  perigee_km : number;
  apogee_km : number;
  orbital_period_minutes : number;
  altitude_km : number;
  velocity_kms : number;
  raan : number;
  arg_perigee : number;
  mean_anomaly : number;
  bstar : number;
  mean_motion_dot : number;
  mean_motion_ddot : number
}.

Definition EARTH_RADIUS_KM : number := lit "6378.137".
Definition GM_KM3_S2 : number := lit "398600.4418".

(** The local constants of the function body, before any rounding. *)
Module Raw.

Definition meanMotion (line2 : string) : number :=
  parseFloat (slice 52 63 line2).

Definition periodSec (meanMotion : number) : number :=
  div (lit "86400") meanMotion.

Definition periodMin (meanMotion : number) : number :=
  div (periodSec meanMotion) (lit "60").

Definition semiMajorAxis (meanMotion : number) : number :=
  Math_cbrt
    (mul GM_KM3_S2
       (Math_pow2 (div (periodSec meanMotion) (mul (lit "2") Math_PI)))).

Definition inclination (line2 : string) : number :=
  parseFloat (slice 8 16 line2).

Definition eccentricity (line2 : string) : number :=
  parseFloat ("0." ++ slice 26 33 line2)%string.

Definition raan (line2 : string) : number :=
  parseFloat (slice 17 25 line2).

Definition argPerigee (line2 : string) : number :=
  parseFloat (slice 34 42 line2).

Definition meanAnomaly (line2 : string) : number :=
  parseFloat (slice 43 51 line2).

Definition altitude (meanMotion : number) : number :=
  sub (semiMajorAxis meanMotion) EARTH_RADIUS_KM.

Definition velocity (meanMotion : number) : number :=
  div (mul (mul (lit "2") Math_PI) (semiMajorAxis meanMotion))
      (periodSec meanMotion).

Definition perigee (meanMotion : number) (line2 : string) : number :=
  sub (mul (semiMajorAxis meanMotion) (sub (lit "1") (eccentricity line2)))
      EARTH_RADIUS_KM.

Definition apogee (meanMotion : number) (line2 : string) : number :=
  sub (mul (semiMajorAxis meanMotion) (add (lit "1") (eccentricity line2)))
      EARTH_RADIUS_KM.

Definition bstar (line1 : string) : number :=
  let bstarStr := trim (slice 53 63 line1) in
  if nonempty bstarStr
  then parseFloat (replace "-" "e-" (replace "+" "e+" bstarStr))
  else lit "0".

Definition mean_motion_dot (line1 : string) : number :=
  let mmDotStr := trim (slice 33 43 line1) in
  if nonempty mmDotStr then parseFloat mmDotStr else lit "0".

Definition mean_motion_ddot (line1 : string) : number :=
  let mmDdotStr := trim (slice 44 52 line1) in
  if nonempty mmDdotStr then parseFloat mmDdotStr else lit "0".

End Raw.

(** [parseFloat(x.toFixed(k))] *)
Definition round_to (k : nat) (x : number) : number :=
  parseFloat (toFixed x k).

(** The object literal returned once the guards have passed. *)
Definition derived (line1 line2 : string) (meanMotion : number) : Derived :=
  {| inclination := round_to 4 (Raw.inclination line2);
     eccentricity := round_to 8 (Raw.eccentricity line2);
     mean_motion := round_to 8 meanMotion;
     semi_major_axis_km := round_to 4 (Raw.semiMajorAxis meanMotion);
     perigee_km := round_to 2 (Raw.perigee meanMotion line2);
     apogee_km := round_to 2 (Raw.apogee meanMotion line2);
     orbital_period_minutes := round_to 4 (Raw.periodMin meanMotion);
     altitude_km := round_to 2 (Raw.altitude meanMotion);
     velocity_kms := round_to 4 (Raw.velocity meanMotion);
     raan := round_to 4 (Raw.raan line2);
     arg_perigee := round_to 4 (Raw.argPerigee line2);
     mean_anomaly := round_to 4 (Raw.meanAnomaly line2);
     bstar := Raw.bstar line1;
     mean_motion_dot := Raw.mean_motion_dot line1;
     mean_motion_ddot := Raw.mean_motion_ddot line1 |}.

(** The text of a line that passed the [!line] test. *)
Definition text (line : option string) : string :=
  match line with Some s => s | None => EmptyString end.

(** scripts/populateDerived.js, shared parser *)
Definition populateDerived (line1 line2 : option string) : option Derived :=
  if negb (present line1) || negb (present line2) then None
  else
    let meanMotion := Raw.meanMotion (text line2) in
    if negb (truthy meanMotion) || less_eq meanMotion (lit "0") then None
    else Some (derived (text line1) (text line2) meanMotion).

(** scripts/populateDerived.js, one-time backfill script; the multi-tenant
    sync job (jobs/fetchDailyTLEs.js) has the same text. *)
Definition calculateDerived (line1 line2 : option string) : option Derived :=
  if negb (present line1) || negb (present line2) then None
  else
    let meanMotion := Raw.meanMotion (text line2) in
    if negb (truthy meanMotion) then None
    else Some (derived (text line1) (text line2) meanMotion).

(** jobs/fetchDailyTLEs.js, cron version *)
Definition calculateDerived_cron (line1 line2 : option string) : option Derived :=
  if negb (present line1) || negb (present line2) then None
  else
    let meanMotion := Raw.meanMotion (text line2) in
    if negb (truthy meanMotion) || less_eq meanMotion (lit "0") then None
    else Some (derived (text line1) (text line2) meanMotion).

End Derive.

(** ** The current-snapshot calculation of the web server (index.js) *)

Module Snapshot.

(** The object built by [fetchFullSatelliteData] from the JSON record. *)
Record SatData : Type := mkSatData {
  norad_id : string;
  name : string;
  tle_line1 : option string;
  tle_line2 : option string;
  inclination : number;
  mean_motion : number;
  eccentricity : number;
  semi_major_axis : number;
  perigee : number;
  apogee : number;
  period : number
}.

Record Params : Type := mkParams {
  altitude : number;
  orbit_type : string;
  orbital_velocity_kms : string;
  orbital_velocity_kmh : number
}.

(** [a || b] on numbers *)
Definition or_else (a b : number) : number := if truthy a then a else b.

(** The [let orbit_type = "UNKNOWN"; if ... else ...] statement. *)
Definition classify (altitude : number) : string :=
  if less altitude (lit "2000") then "LEO"
  else if less altitude (lit "35786") then "MEO"
  else if less_eq (Math_abs (sub altitude (lit "35786"))) (lit "2000") then "GEO"
  else "HEO".

Definition calculateDerivedParams (data : SatData) : Params :=
  let meanMotion := mean_motion data in
  if negb (truthy meanMotion) || less_eq meanMotion (lit "0") then
    {| altitude := lit "0"; orbit_type := "UNKNOWN";
       orbital_velocity_kms := "0.000"; orbital_velocity_kmh := lit "0" |}
  else
    let periodSec := div (lit "86400") meanMotion in
    let semiMajorAxis :=
      or_else (semi_major_axis data)
        (Math_cbrt
           (mul (lit "398600.4418")
              (Math_pow2 (div periodSec (mul (lit "2") Math_PI))))) in
    let altitude := sub semiMajorAxis (lit "6378.137") in
    let velocityKms := div (mul (mul (lit "2") Math_PI) semiMajorAxis) periodSec in
    {| altitude := Math_round altitude;
       orbit_type := classify altitude;
       orbital_velocity_kms := toFixed velocityKms 3;
       orbital_velocity_kmh := Math_round (mul velocityKms (lit "3600")) |}.

End Snapshot.

(** ** The epoch resolver

    The epoch of an element set is read from columns 19-32 of line 1.  A
    [Date] is modelled by its time value in milliseconds, [None] standing
    for an invalid date.  The host is taken to run in UTC, so that the
    local-time setters [setSeconds] and [setMilliseconds] act on the UTC
    fields. *)

Module Epoch.

Definition msPerDay : Z := 86400000.

(** Day number of 1 January of year [y] (ECMAScript DayFromYear). *)
Definition DayFromYear (y : Z) : Z :=
  365 * (y - 1970) + (y - 1969) / 4 - (y - 1901) / 100 + (y - 1601) / 400.

Definition TimeClip (t : Z) : option Z :=
  if Z.abs t <=? 8640000000000000 then Some t else None.

(** [const year = parseInt(line1.slice(18, 20))] *)
Definition year (line1 : string) : number := parseInt (slice 18 20 line1).

(** [const dayOfYear = parseFloat(line1.slice(20, 32))] *)
Definition dayOfYear (line1 : string) : number := parseFloat (slice 20 32 line1).

(** [const fullYear = year < 57 ? 2000 + year : 1900 + year] *)
Definition pivot (year : number) : number :=
  if less year (lit "57") then add (lit "2000") year else add (lit "1900") year.

Definition fullYear (line1 : string) : number := pivot (year line1).

(** The calendar year [Date.UTC(fullYear, 0)] starts: years 0..99 are
    read as 1900..1999 (MakeFullYear). *)
Definition utcYear (fullYear : number) : option Z :=
  if isFinite fullYear then
    let y := trunc_Z fullYear in
    Some (if (0 <=? y) && (y <=? 99) then 1900 + y else y)
  else None.

(** [new Date(Date.UTC(fullYear, 0))] followed by
    [setUTCDate(date)] and by a setter that adds [offset] milliseconds to a
    midnight: the day is [MakeDay(year, 0, date)], whose day-of-month
    argument is truncated. *)
Definition makeDate (fullYear date : number) (offset : option Z) : option Z :=
  match utcYear fullYear, offset with
  | Some y, Some ms =>
      match TimeClip (DayFromYear y * msPerDay) with
      | Some _ =>
          if isFinite date then
            match TimeClip ((DayFromYear y + trunc_Z date - 1) * msPerDay) with
            | Some t => TimeClip (t + ms)
            | None => None
            end
          else None
      | None => None
      end
  | _, _ => None
  end.

(** The truncated argument of a time setter, [None] when not finite. *)
Definition toInteger (x : number) : option Z :=
  if isFinite x then Some (trunc_Z x) else None.

(** The multi-tenant sync job and the add-satellite route:
<<
  epochDate.setUTCDate(epochDate.getUTCDate() + dayOfYear - 1);
  const fraction = dayOfYear % 1;
  epochDate.setSeconds(epochDate.getSeconds() + fraction * 86400);
>> *)
Definition epochDate (line1 : string) : option Z :=
  let dayOfYear := dayOfYear line1 in
  let date := sub (add (lit "1") dayOfYear) (lit "1") in
  let fraction := rem dayOfYear (lit "1") in
  let seconds := add (lit "0") (mul fraction (lit "86400")) in
  makeDate (fullYear line1) date
    (option_map (fun s => s * 1000) (toInteger seconds)).

(** The cron sync job:
<<
  epochDate.setUTCDate(epochDate.getUTCDate() + Math.floor(dayOfYear) - 1);
  const millisecondsInDay = (dayOfYear % 1) * 86400000;
  epochDate.setMilliseconds(epochDate.getMilliseconds() + millisecondsInDay);
>> *)
Definition epochDate_ms (line1 : string) : option Z :=
  let dayOfYear := dayOfYear line1 in
  let date := sub (add (lit "1") (Math_floor dayOfYear)) (lit "1") in
  let millisecondsInDay := mul (rem dayOfYear (lit "1")) (lit "86400000") in
  makeDate (fullYear line1) date
    (toInteger (add (lit "0") millisecondsInDay)).

End Epoch.

(** ** The persisted tables *)

Module Store.

Record HistoryRow : Type := mkHistoryRow {
  h_norad_id : string;
  h_name : string;
  h_tle_line1 : string;
  h_tle_line2 : string;
  h_epoch : Z;
  h_user_id : string
}.

Record DerivedRow : Type := mkDerivedRow {
  d_norad_id : string;
  d_name : string;
  d_epoch : Z;
  d_values : Derive.Derived;
  d_user_id : option string
}.

Record SatelliteRow : Type := mkSatelliteRow {
  s_norad_id : option string;
  s_user_id : option string
}.

Record Database : Type := mkDatabase {
  satellites : list SatelliteRow;
  tle_history : list HistoryRow;
  tle_derived : list DerivedRow
}.

(** Modelled from the spec: the unique key (norad_id, epoch, user_id) of
    [tle_history], which the schema (not part of the sources) declares and
    the statement names in [ON CONFLICT]. *)
Definition history_conflict (a b : HistoryRow) : bool :=
  (h_norad_id a =? h_norad_id b)%string && (h_epoch a =? h_epoch b)
  && (h_user_id a =? h_user_id b)%string.

(** Modelled from the spec: the same unique key on [tle_derived], declared
    by the schema as well; a NULL user_id conflicts with nothing. *)
Definition derived_conflict (a b : DerivedRow) : bool :=
  (d_norad_id a =? d_norad_id b)%string && (d_epoch a =? d_epoch b)
  && match d_user_id a, d_user_id b with
     | Some u, Some v => (u =? v)%string
     | _, _ => false
     end.

(** Modelled from the spec: the key (norad_id, epoch) that the backfill
    statement names in [ON CONFLICT]. *)
Definition backfill_conflict (a b : DerivedRow) : bool :=
  (d_norad_id a =? d_norad_id b)%string && (d_epoch a =? d_epoch b).

(** [INSERT INTO tle_history ... ON CONFLICT (norad_id, epoch, user_id)
    DO NOTHING]: the new table and the number of rows inserted. *)
Definition insert_history (r : HistoryRow) (t : list HistoryRow)
  : list HistoryRow * nat :=
  if existsb (history_conflict r) t then (t, 0%nat) else (t ++ [r], 1%nat).

(** [INSERT INTO tle_derived ... ON CONFLICT (norad_id, epoch, user_id)
    DO NOTHING] *)
Definition insert_derived (r : DerivedRow) (t : list DerivedRow)
  : list DerivedRow * nat :=
  if existsb (derived_conflict r) t then (t, 0%nat) else (t ++ [r], 1%nat).

(** [INSERT INTO tle_derived ... ON CONFLICT (norad_id, epoch) DO UPDATE
    SET name = EXCLUDED.name, inclination = EXCLUDED.inclination, ...]:
    every column but the key and user_id is overwritten. *)
Definition upsert_derived (r : DerivedRow) (t : list DerivedRow)
  : list DerivedRow * nat :=
  if existsb (backfill_conflict r) t then
    (List.map
       (fun x =>
          if backfill_conflict r x
          then {| d_norad_id := d_norad_id x; d_name := d_name r;
                  d_epoch := d_epoch x; d_values := d_values r;
                  d_user_id := d_user_id x |}
          else x) t, 1%nat)
  else (t ++ [r], 1%nat).

(** The number of stored history rows under the key of [r]. *)
Definition history_count (r : HistoryRow) (t : list HistoryRow) : nat :=
  List.length (List.filter (history_conflict r) t).

(** No two stored rows share a key. *)
Fixpoint history_unique (t : list HistoryRow) : Prop :=
  match t with
  | [] => True
  | r :: t' => existsb (history_conflict r) t' = false /\ history_unique t'
  end.

(** The row of [tle_history] and the row of [tle_derived] that a sync pass
    writes for one element set. *)
Definition history_row (norad name line1 line2 : string) (epoch : Z)
    (userId : string) : HistoryRow :=
  {| h_norad_id := norad; h_name := name; h_tle_line1 := line1;
     h_tle_line2 := line2; h_epoch := epoch; h_user_id := userId |}.

Definition derived_row (norad name : string) (epoch : Z)
    (derived : Derive.Derived) (userId : string) : DerivedRow :=
  {| d_norad_id := norad; d_name := name; d_epoch := epoch;
     d_values := derived; d_user_id := Some userId |}.

(** The persistence step of a sync pass for one element set: the two
    inserts, in the order the job issues them. *)
Definition persist (norad name line1 line2 : string) (epoch : Z)
    (userId : string) (derived : Derive.Derived) (db : Database) : Database :=
  {| satellites := satellites db;
     tle_history :=
       fst (insert_history (history_row norad name line1 line2 epoch userId)
              (tle_history db));
     tle_derived :=
       fst (insert_derived (derived_row norad name epoch derived userId)
              (tle_derived db)) |}.

(** The row the backfill script writes for a history row: the statement
    names no user_id column. *)
Definition backfill_row (row : HistoryRow) (derived : Derive.Derived)
  : DerivedRow :=
  {| d_norad_id := h_norad_id row; d_name := h_name row;
     d_epoch := h_epoch row; d_values := derived; d_user_id := None |}.

(** The persistence step of the backfill script for one history row. *)
Definition backfill (row : HistoryRow) (derived : Derive.Derived)
    (db : Database) : Database :=
  {| satellites := satellites db;
     tle_history := tle_history db;
     tle_derived := fst (upsert_derived (backfill_row row derived)
                           (tle_derived db)) |}.

End Store.

(** ** The Space-Track session of the web server (index.js)

    Time is the millisecond clock read by [Date.now()]; it advances while a
    request is in flight. *)

Module Session.

Record State : Type := mkState {
  cookies : option (list string);
  lastLogin : Z;
  rateLimitUntil : Z
}.

Inductive Request : Type :=
| Login
| Get (noradId : string).

(** The JSON record of one element set, as Space-Track returns it. *)
Record SatJson : Type := mkSatJson {
  OBJECT_NAME : option string;
  TLE_LINE1 : option string;
  TLE_LINE2 : option string;
  INCLINATION : option string;
  MEAN_MOTION : option string;
  ECCENTRICITY : option string;
  SEMIMAJOR_AXIS : option string;
  PERIGEE : option string;
  APOGEE : option string;
  PERIOD : option string
}.

Inductive LoginReply : Type :=
| LoginOk (set_cookie : option (list string))
| LoginFailed.

Inductive GetReply : Type :=
| GetOk (data : option (list SatJson))
| GetFailed (status : option Z).

(** The upstream service and the host environment: whether credentials
    are configured, and for the [n]-th request its reply and the time it
    takes. *)
Record Upstream : Type := mkUpstream {
  credentials : bool;
  login_reply : nat -> LoginReply;
  get_reply : nat -> string -> GetReply;
  latency : nat -> nat
}.

(** The clock and the requests sent so far, oldest first, each with the
    time at which it was sent. *)
Record Net : Type := mkNet {
  clock : Z;
  sent : list (Z * Request)
}.

Definition send (up : Upstream) (r : Request) (n : Net) : Net :=
  {| clock := clock n + Z.of_nat (latency up (List.length (sent n)));
     sent := sent n ++ [(clock n, r)] |}.

Definition loginToSpaceTrack (up : Upstream) (s : State) (n : Net)
  : bool * State * Net :=
  if negb (credentials up) then (false, s, n)
  else
    let n' := send up Login n in
    match login_reply up (List.length (sent n)) with
    | LoginOk c =>
        (true,
         {| cookies := c; lastLogin := clock n'; rateLimitUntil := 0 |}, n')
    | LoginFailed =>
        (false,
         {| cookies := None; lastLogin := lastLogin s;
            rateLimitUntil := rateLimitUntil s |}, n')
    end.

Definition has_cookies (s : State) : bool :=
  match cookies s with Some _ => true | None => false end.

Definition ensureSession (up : Upstream) (s : State) (n : Net)
  : bool * State * Net :=
  if negb (has_cookies s) || (20 * 60 * 1000 <? clock n - lastLogin s) then
    let '(_, s', n') := loginToSpaceTrack up s n in
    (has_cookies s', s', n')
  else (has_cookies s, s, n).

(** [parseFloat(field) || 0]; an absent field reads as NaN. *)
Definition field_or_0 (f : option string) : number :=
  Snapshot.or_else
    (match f with Some v => parseFloat v | None => NaN end) (lit "0").

Definition sat_name (f : option string) : string :=
  match f with
  | Some v => if nonempty (trim v) then trim v else "UNKNOWN"
  | None => "UNKNOWN"
  end.

Definition fetchFullSatelliteData (up : Upstream) (noradId : string)
    (s : State) (n : Net) : option Snapshot.SatData * State * Net :=
  let '(ok, s1, n1) := ensureSession up s n in
  if negb ok then (None, s1, n1)
  else if clock n1 <? rateLimitUntil s1 then (None, s1, n1)
  else
    let n2 := send up (Get noradId) n1 in
    match get_reply up (List.length (sent n1)) noradId with
    | GetOk (Some (sat :: _)) =>
        (Some {| Snapshot.norad_id := noradId;
                 Snapshot.name := sat_name (OBJECT_NAME sat);
                 Snapshot.tle_line1 := TLE_LINE1 sat;
                 Snapshot.tle_line2 := TLE_LINE2 sat;
                 Snapshot.inclination := field_or_0 (INCLINATION sat);
                 Snapshot.mean_motion := field_or_0 (MEAN_MOTION sat);
                 Snapshot.eccentricity := field_or_0 (ECCENTRICITY sat);
                 Snapshot.semi_major_axis := field_or_0 (SEMIMAJOR_AXIS sat);
                 Snapshot.perigee := field_or_0 (PERIGEE sat);
                 Snapshot.apogee := field_or_0 (APOGEE sat);
                 Snapshot.period := field_or_0 (PERIOD sat) |}, s1, n2)
    | GetOk _ => (None, s1, n2)
    | GetFailed status =>
        (None,
         match status with
         | Some 429 =>
             {| cookies := cookies s1; lastLogin := lastLogin s1;
                rateLimitUntil := clock n2 + 60 * 1000 |}
         | _ => s1
         end, n2)
    end.

End Session.

(** ** The sync jobs (jobs/fetchDailyTLEs.js)

    A job runs against a world that answers its HTTP requests and decides
    which database statements fail; it threads its session cookies, the
    database and a trace of everything it did. *)

Module Job.

Import Store.

Inductive Request : Type :=
| Login
| GetTLE (noradIds : string).

Inductive Query : Type :=
| SelectSatellites
| InsertHistory (r : HistoryRow)
| InsertDerived (r : DerivedRow)
| InsertInvalidDate (norad : string).

Inductive Level : Type := Log | Warn | Error.

Inductive Message : Type :=
| JobStarted
| LoginSuccessful
| LoginFailed (err : string)
| CredentialsMissing
| SkippingNoSession
| NoSatellites
| Fetching (count : nat)
| NoValidTLE (norad : string)
| InvalidFormat (norad : string)
| FailedToDerive (norad : string)
| FailedFor (norad err : string)
| JobComplete (storedCount : nat)
| JobFailed (err : string)
| SkippingInvalidBlock
| NoUserId (norad : string)
| AttemptFailed (attempt : nat) (err : string)
| Retrying
| GivingUp.

Inductive Event : Type :=
| Sent (r : Request)
| Ran (q : Query)
| Slept (ms : Z)
| Logged (l : Level) (m : Message)
| PoolEnded
| Exited (status : Z).

(** The upstream service, the environment and the database faults.  The
    [n]-th HTTP request either gets a reply or throws; the [n]-th statement
    is rejected when [db_fault n q] holds. *)
Record World : Type := mkWorld {
  credentials : bool;
  login_reply : nat -> option (option (list string));
  get_reply : nat -> string -> option string;
  db_fault : nat -> Query -> bool
}.

Record State : Type := mkState {
  cookies : option (list string);
  db : Database;
  trace : list Event
}.

Definition is_sent (e : Event) : bool :=
  match e with Sent _ => true | _ => false end.

Definition is_ran (e : Event) : bool :=
  match e with Ran _ => true | _ => false end.

Definition is_login (e : Event) : bool :=
  match e with Sent Login => true | _ => false end.

Definition is_get (e : Event) : bool :=
  match e with Sent (GetTLE _) => true | _ => false end.

Definition count (p : Event -> bool) (t : list Event) : nat :=
  List.length (List.filter p t).

(** *** A state and exception monad for the async functions *)

Inductive Outcome (A : Type) : Type :=
| Returned (a : A)
| Thrown (message : string).
Arguments Returned {A} a.
Arguments Thrown {A} message.

Definition M (A : Type) : Type := State -> Outcome A * State.

Definition ret {A} (a : A) : M A := fun st => (Returned a, st).

Definition throw {A} (message : string) : M A := fun st => (Thrown message, st).

Definition bind {A B} (m : M A) (k : A -> M B) : M B :=
  fun st =>
    match m st with
    | (Returned a, st') => k a st'
    | (Thrown e, st') => (Thrown e, st')
    end.

(** [try { body } catch (err) { handler }] *)
Definition try_catch {A} (body : M A) (handler : string -> M A) : M A :=
  fun st =>
    match body st with
    | (Returned a, st') => (Returned a, st')
    | (Thrown e, st') => handler e st'
    end.

(** [try { body } finally { cleanup }] *)
Definition finally {A} (body : M A) (cleanup : M unit) : M A :=
  fun st =>
    match body st with
    | (o, st') =>
        match cleanup st' with
        | (Returned _, st'') => (o, st'')
        | (Thrown e, st'') => (Thrown e, st'')
        end
    end.

Declare Scope job_scope.
Delimit Scope job_scope with job.
Notation "x <- m ;; k" := (bind m (fun x => k))
  (at level 61, m at next level, right associativity) : job_scope.
Notation "m ;;; k" := (bind m (fun _ => k))
  (at level 61, right associativity) : job_scope.
Local Open Scope job_scope.

Definition emit (e : Event) : M unit :=
  fun st =>
    (Returned tt,
     {| cookies := cookies st; db := db st; trace := trace st ++ [e] |}).

Definition console (l : Level) (m : Message) : M unit := emit (Logged l m).

Definition sleep (ms : Z) : M unit := emit (Slept ms).

Definition get_cookies : M (option (list string)) :=
  fun st => (Returned (cookies st), st).

Definition set_cookies (c : option (list string)) : M unit :=
  fun st => (Returned tt, {| cookies := c; db := db st; trace := trace st |}).

(** [axios.post(".../ajaxauth/login", ...)]: the set-cookie header of the
    response. *)
Definition post_login (w : World) : M (option (list string)) :=
  fun st =>
    let n := count is_sent (trace st) in
    match emit (Sent Login) st with
    | (_, st') =>
        match login_reply w n with
        | Some c => (Returned c, st')
        | None => (Thrown "Request failed", st')
        end
    end.

(** [axios.get(url, { headers: { Cookie: cookies.join("; ") }, ... })]:
    the body of the response.  Joining absent cookies throws before any
    request is made. *)
Definition http_get (w : World) (noradIds : string) : M string :=
  fun st =>
    match cookies st with
    | None => (Thrown "Cannot read properties of null (reading 'join')", st)
    | Some _ =>
        let n := count is_sent (trace st) in
        match emit (Sent (GetTLE noradIds)) st with
        | (_, st') =>
            match get_reply w n noradIds with
            | Some data => (Returned data, st')
            | None => (Thrown "Request failed", st')
            end
        end
    end.

(** The rows of
    [SELECT norad_id, user_id FROM satellites
     WHERE norad_id IS NOT NULL AND user_id IS NOT NULL]. *)
Definition selected (t : list SatelliteRow) : list (string * string) :=
  List.flat_map
    (fun r =>
       match s_norad_id r, s_user_id r with
       | Some n, Some u => [(n, u)]
       | _, _ => []
       end) t.

Definition select_satellites (w : World) : M (list (string * string)) :=
  fun st =>
    let n := count is_ran (trace st) in
    match emit (Ran SelectSatellites) st with
    | (_, st') =>
        if db_fault w n SelectSatellites then (Thrown "Query failed", st')
        else (Returned (selected (satellites (db st))), st')
    end.

Definition apply_insert (q : Query) (d : Database) : Database :=
  match q with
  | InsertHistory r =>
      {| satellites := satellites d;
         tle_history := fst (insert_history r (tle_history d));
         tle_derived := tle_derived d |}
  | InsertDerived r =>
      {| satellites := satellites d;
         tle_history := tle_history d;
         tle_derived := fst (insert_derived r (tle_derived d)) |}
  | _ => d
  end.

(** [pool.query("INSERT ...", params)].  An invalid [Date] parameter is
    rejected by the server as a malformed timestamp. *)
Definition insert (w : World) (q : Query) : M unit :=
  fun st =>
    let n := count is_ran (trace st) in
    match emit (Ran q) st with
    | (_, st') =>
        match q with
        | InsertInvalidDate _ => (Thrown "invalid input syntax for type timestamp", st')
        | _ =>
            if db_fault w n q then (Thrown "Query failed", st')
            else (Returned tt,
                  {| cookies := cookies st';
                     db := apply_insert q (db st');
                     trace := trace st' |})
        end
    end.

(** The two inserts of one element set. *)
Definition store (w : World) (norad name line1 line2 : string)
    (epochDate : option Z) (userId : string) (derived : Derive.Derived) : M unit :=
  match epochDate with
  | None => insert w (InsertInvalidDate norad)
  | Some epoch =>
      insert w (InsertHistory (history_row norad name line1 line2 epoch userId)) ;;;
      insert w (InsertDerived (derived_row norad name epoch derived userId))
  end.

Definition LF : ascii := ascii_of_nat 10.

(** [text.split("\n").map(l => l.trim()).filter(Boolean)] *)
Definition nonblank_lines (text : string) : list string :=
  List.filter nonempty (List.map trim (split LF text)).

(** [lines[i]] *)
Definition at_index (i : nat) (lines : list string) : option string :=
  List.nth_error lines i.

(** *** The cron job: one request per tracked object *)

Module Cron.

Definition loginToSpaceTrack (w : World) : M bool :=
  if negb (credentials w) then
    console Error CredentialsMissing ;;; ret false
  else
    try_catch
      (c <- post_login w ;;
       set_cookies c ;;;
       console Log LoginSuccessful ;;;
       ret true)
      (fun err =>
         console Error (LoginFailed err) ;;;
         set_cookies None ;;;
         ret false).

(** How the [try] block of one loop iteration ends: by [continue], or by
    running to its last statement. *)
Inductive Completion : Type := Continue | Stored.

(** The [try] block of the loop body. *)
Definition fetch_one (w : World) (norad userId : string) : M Completion :=
  body <- http_get w norad ;;
  let data := trim body in
  if negb (nonempty data) || (String.length data <? 50)%nat then
    console Warn (NoValidTLE norad) ;;; ret Continue
  else
    let lines := nonblank_lines data in
    if (List.length lines <? 3)%nat then
      console Warn (InvalidFormat norad) ;;; ret Continue
    else
      let name := Derive.text (at_index 0 lines) in
      let line1 := Derive.text (at_index 1 lines) in
      let line2 := Derive.text (at_index 2 lines) in
      let epochDate := Epoch.epochDate_ms line1 in
      match Derive.populateDerived (Some line1) (Some line2) with
      | None => console Warn (FailedToDerive norad) ;;; ret Continue
      | Some derived =>
          store w norad name line1 line2 epochDate userId derived ;;;
          ret Stored
      end.

(** [for (const { norad_id: norad, user_id: userId } of rows) { try {...}
    catch (err) { console.warn(...) } await sleep(1000); }] *)
Fixpoint for_rows (w : World) (rows : list (string * string))
    (storedCount : nat) : M nat :=
  match rows with
  | [] => ret storedCount
  | (norad, userId) :: rest =>
      c <- try_catch
             (c <- fetch_one w norad userId ;; ret (Some c))
             (fun err => console Warn (FailedFor norad err) ;;; ret None) ;;
      match c with
      | Some Continue => for_rows w rest storedCount
      | Some Stored => sleep 1000 ;;; for_rows w rest (S storedCount)
      | None => sleep 1000 ;;; for_rows w rest storedCount
      end
  end.

Definition fetchAndStoreTLEs (w : World) : M unit :=
  console Log JobStarted ;;;
  c <- get_cookies ;;
  ok <- match c with
        | Some _ => ret true
        | None => loginToSpaceTrack w
        end ;;
  if negb ok then console Log SkippingNoSession
  else
    finally
      (try_catch
         (rows <- select_satellites w ;;
          match rows with
          | [] => console Log NoSatellites
          | _ =>
              console Log (Fetching (List.length rows)) ;;;
              storedCount <- for_rows w rows 0 ;;
              console Log (JobComplete storedCount)
          end)
         (fun err => console Error (JobFailed err)))
      (emit PoolEnded ;;; emit (Exited 0)).

End Cron.

(** *** The multi-tenant job: one bulk request, retried as a whole *)

Module Final.

Definition login (w : World) : M bool :=
  try_catch
    (c <- post_login w ;;
     set_cookies c ;;;
     console Log LoginSuccessful ;;;
     ret true)
    (fun err =>
       console Error (LoginFailed err) ;;;
       set_cookies None ;;;
       ret false).

(** [userMap[k] = v] on an object used as a map *)
Definition assign (k v : string) (m : list (string * string))
  : list (string * string) :=
  (k, v) :: List.filter (fun e => negb (k =? fst e)%string) m.

(** [userMap[k]] *)
Definition lookup (k : string) (m : list (string * string)) : option string :=
  option_map snd (List.find (fun e => (k =? fst e)%string) m).

(** [rows.forEach(r => userMap[r.norad_id] = r.user_id)] *)
Definition build_userMap (rows : list (string * string)) : list (string * string) :=
  List.fold_left (fun m r => assign (fst r) (snd r) m) rows [].

(** [rows.map(r => r.norad_id).join(",")] *)
Definition noradList (rows : list (string * string)) : string :=
  String.concat "," (List.map fst rows).

(** One iteration of the [while (i < lines.length)] loop reads the block
    at the head of the lines not yet consumed: [lines[i]], [lines[i + 1]],
    [lines[i + 2]], and advances by two or three lines. *)
Record Block : Type := mkBlock {
  b_name : string;
  b_line1 : option string;
  b_line2 : option string;
  b_rest : list string
}.

Definition next_block (first : string) (rest : list string) : Block :=
  if nonempty first && negb (startsWith "1 " first) then
    {| b_name := first; b_line1 := at_index 0 rest;
       b_line2 := at_index 1 rest; b_rest := List.skipn 2 rest |}
  else
    {| b_name := "UNKNOWN"; b_line1 := Some first;
       b_line2 := at_index 0 rest; b_rest := List.skipn 1 rest |}.

Definition valid_block (b : Block) : bool :=
  present (b_line1 b) && present (b_line2 b)
  && startsWith "1 " (Derive.text (b_line1 b))
  && startsWith "2 " (Derive.text (b_line2 b)).

(** The statements of the loop body after the block has been read; the
    result tells whether [storedCount] was incremented. *)
Definition process_block (w : World) (userMap : list (string * string))
    (b : Block) : M bool :=
  if negb (valid_block b) then
    console Warn SkippingInvalidBlock ;;; ret false
  else
    let line1 := Derive.text (b_line1 b) in
    let line2 := Derive.text (b_line2 b) in
    let norad := trim (slice 2 7 line1) in
    if negb (present (lookup norad userMap)) then
      console Warn (NoUserId norad) ;;; ret false
    else
      let userId := Derive.text (lookup norad userMap) in
      let epochDate := Epoch.epochDate line1 in
      match Derive.calculateDerived (Some line1) (Some line2) with
      | None => ret false
      | Some derived =>
          store w norad (b_name b) line1 line2 epochDate userId derived ;;;
          ret true
      end.

Equations while_blocks (w : World) (userMap : list (string * string))
    (lines : list string) (storedCount : nat) : M nat
    by wf (List.length lines) Nat.lt :=
  while_blocks w userMap [] storedCount := ret storedCount;
  while_blocks w userMap (first :: rest) storedCount :=
    bind (process_block w userMap (next_block first rest))
      (fun stored =>
         while_blocks w userMap (b_rest (next_block first rest))
           (if stored then S storedCount else storedCount)).
Next Obligation.
  unfold next_block.
  destruct (nonempty first && negb (startsWith "1 " first)); cbn [b_rest];
    rewrite List.length_skipn; simpl; lia.
Qed.

(** The [try] block of one attempt. *)
Definition pass (w : World) : M unit :=
  rows <- select_satellites w ;;
  match rows with
  | [] => console Log NoSatellites
  | _ =>
      let userMap := build_userMap rows in
      console Log (Fetching (List.length rows)) ;;;
      body <- http_get w (noradList rows) ;;
      let lines := nonblank_lines (trim body) in
      storedCount <- while_blocks w userMap lines 0 ;;
      console Log (JobComplete storedCount)
  end.

(** [if (!cookies && !(await login()))] *)
Definition no_session (w : World) : M bool :=
  c <- get_cookies ;;
  match c with
  | Some _ => ret false
  | None => ok <- login w ;; ret (negb ok)
  end.

(** [fetchAndStoreTLEs(retryCount = 0)]; the final state of the run. *)
Equations fetchAndStoreTLEs (w : World) (retryCount : nat) (st : State) : State
    by wf (3 - retryCount)%nat Nat.lt :=
  fetchAndStoreTLEs w retryCount st with no_session w st := {
    | (Returned true, st1) => snd (console Log SkippingNoSession st1)
    | (Thrown _, st1) => st1
    | (Returned false, st1) with pass w st1 := {
        | (Returned _, st2) => st2
        | (Thrown err, st2) with lt_dec retryCount 3 := {
            | left _ =>
                fetchAndStoreTLEs w (S retryCount)
                  (snd ((console Error (AttemptFailed (S retryCount) err) ;;;
                         console Log Retrying ;;;
                         set_cookies None ;;;
                         sleep 30000) st2))
            | right _ =>
                snd ((console Error (AttemptFailed (S retryCount) err) ;;;
                      console Error GivingUp) st2) } } }.
Next Obligation.
  unfold Nat.lt. destruct retryCount as [|[|[|k]]]; lia.
Qed.

End Final.

End Job.

(** ** The cron job in TLE format (jobs/fetchDailyTLEs.js, cron version)

    The version of the cron job that carries its own [calculateDerived]:
    it asks for [format/tle], accepts a reply of two lines and reads the
    epoch with [setSeconds]. *)

Module JobTle.

Import Job Store.
Local Open Scope job_scope.

Definition login (w : World) : M bool :=
  if negb (credentials w) then
    console Error CredentialsMissing ;;; ret false
  else
    try_catch
      (c <- post_login w ;;
       set_cookies c ;;;
       console Log LoginSuccessful ;;;
       ret true)
      (fun err =>
         console Error (LoginFailed err) ;;;
         set_cookies None ;;;
         ret false).

(** [lines[2] || lines[1]] *)
Definition third_or_second (lines : list string) : string :=
  if present (at_index 2 lines) then Derive.text (at_index 2 lines)
  else Derive.text (at_index 1 lines).

(** The [try] block of the loop body. *)
Definition fetch_one (w : World) (norad userId : string) : M Cron.Completion :=
  body <- http_get w norad ;;
  let data := trim body in
  if negb (nonempty data) then
    console Warn (NoValidTLE norad) ;;; ret Cron.Continue
  else
    let lines := nonblank_lines data in
    if (List.length lines <? 2)%nat then
      console Warn (InvalidFormat norad) ;;; ret Cron.Continue
    else
      let name := Derive.text (at_index 0 lines) in
      let line1 := Derive.text (at_index 1 lines) in
      let line2 := third_or_second lines in
      let epochDate := Epoch.epochDate line1 in
      match Derive.calculateDerived_cron (Some line1) (Some line2) with
      | None => console Warn (FailedToDerive norad) ;;; ret Cron.Continue
      | Some derived =>
          store w norad name line1 line2 epochDate userId derived ;;;
          ret Cron.Stored
      end.

Fixpoint for_rows (w : World) (rows : list (string * string))
    (storedCount : nat) : M nat :=
  match rows with
  | [] => ret storedCount
  | (norad, userId) :: rest =>
      c <- try_catch
             (c <- fetch_one w norad userId ;; ret (Some c))
             (fun err => console Warn (FailedFor norad err) ;;; ret None) ;;
      match c with
      | Some Cron.Continue => for_rows w rest storedCount
      | Some Cron.Stored => sleep 1000 ;;; for_rows w rest (S storedCount)
      | None => sleep 1000 ;;; for_rows w rest storedCount
      end
  end.

Definition fetchAndStoreTLEs (w : World) : M unit :=
  console Log JobStarted ;;;
  c <- get_cookies ;;
  ok <- match c with
        | Some _ => ret true
        | None => login w
        end ;;
  if negb ok then console Log SkippingNoSession
  else
    try_catch
      (rows <- select_satellites w ;;
       match rows with
       | [] => console Log NoSatellites
       | _ =>
           console Log (Fetching (List.length rows)) ;;;
           storedCount <- for_rows w rows 0 ;;
           console Log (JobComplete storedCount)
       end)
      (fun err => console Error (JobFailed err)).

End JobTle.

(** ** The backfill script (scripts/populateDerived.js, one-time script)

    The script reads every row of [tle_history], ordered by epoch, and
    writes a row of [tle_derived] for each one it can derive.  The rows the
    SELECT returned are an argument; [fault n r] tells whether the [n]-th
    statement, writing [r], is rejected.  A line that is NULL in the table
    is skipped by [!line1 || !line2] like an empty one, and reads as the
    empty string here. *)

Module Backfill.

Import Store.

(** [for (const row of rows) { ... }]: the count reached, or [None] when a
    statement threw, and the table as the loop left it. *)
Fixpoint for_rows (fault : nat -> DerivedRow -> bool) (rows : list HistoryRow)
    (issued count : nat) (t : list DerivedRow) : option nat * list DerivedRow :=
  match rows with
  | [] => (Some count, t)
  | row :: rest =>
      match Derive.calculateDerived (Some (h_tle_line1 row)) (Some (h_tle_line2 row)) with
      | None => for_rows fault rest issued count t
      | Some derived =>
          if fault issued (backfill_row row derived) then (None, t)
          else
            for_rows fault rest (S issued) (S count)
              (fst (upsert_derived (backfill_row row derived) t))
      end
  end.

(** [populateDerived().catch(...)]: the exit status of the process, the
    number of records reported, and the database.  [selected] is the reply
    to the SELECT, [None] when it throws. *)
Definition populateDerived (selected : option (list HistoryRow))
    (fault : nat -> DerivedRow -> bool) (db : Database)
  : Z * option nat * Database :=
  match selected with
  | None => (1, None, db)
  | Some rows =>
      match for_rows fault rows 0 0 (tle_derived db) with
      | (Some count, t) =>
          (0, Some count,
           {| satellites := satellites db; tle_history := tle_history db;
              tle_derived := t |})
      | (None, t) =>
          (1, None,
           {| satellites := satellites db; tle_history := tle_history db;
              tle_derived := t |})
      end
  end.

End Backfill.

(** ** The routes of the web server that reach Space-Track (index.js)

    The database is the pool's: a statement gets the rows the server
    returns, or throws.  The rows are passed through to the response as
    they come, so their type is left open. *)

Module Web.

Import Session.

(** The sixteen parameters of the INSERT into [satellites]. *)
Record SatParams : Type := mkSatParams {
  p_norad_id : string;
  p_name : string;
  p_tle_line1 : option string;
  p_tle_line2 : option string;
  p_inclination : number;
  p_mean_motion : number;
  p_eccentricity : number;
  p_semi_major_axis : number;
  p_perigee : number;
  p_apogee : number;
  p_period : number;
  p_altitude : number;
  p_orbit_type : string;
  p_orbital_velocity_kms : string;
  p_orbital_velocity_kmh : number;
  p_user_id : string
}.

Inductive Statement : Type :=
| SelectSatellite (norad_id userId : string)
| UpsertSatellite (p : SatParams).

Section Routes.

Variable Row : Type.

Inductive DbReply : Type :=
| DbRows (rows : list Row)
| DbError.

(** The upstream service, the replies to requests in TLE text format
    ([None]: the request throws) and the replies of the database. *)
Record Server : Type := mkServer {
  upstream : Upstream;
  tle_reply : nat -> option string;
  db_reply : nat -> Statement -> DbReply
}.

(** The session, the network and the statements run so far. *)
Record Ctx : Type := mkCtx {
  session : State;
  net : Net;
  ran : list Statement
}.

Inductive Body : Type :=
| ErrorBody (error : string)
| RowBody (sat : option Row)
| IssBody (name : string) (line1 line2 : option string).

(** What the handler did with the response: sent a status and a body, or
    threw before sending anything. *)
Inductive Response : Type :=
| Json (status : Z) (body : Body)
| Threw (error : string).

(** [await pool.query(...)] *)
Definition query (srv : Server) (q : Statement) (ctx : Ctx) : DbReply * Ctx :=
  (db_reply srv (List.length (ran ctx)) q,
   {| session := session ctx; net := net ctx; ran := ran ctx ++ [q] |}).

(** [await fetchFullSatelliteData(noradId)] *)
Definition fetch (srv : Server) (noradId : string) (ctx : Ctx)
  : option Snapshot.SatData * Ctx :=
  let '(data, s, n) :=
    fetchFullSatelliteData (upstream srv) noradId (session ctx) (net ctx) in
  (data, {| session := s; net := n; ran := ran ctx |}).

(** The parameters of the upsert of [GET /api/satellite/:norad_id]. *)
Definition upsert_params (fresh : Snapshot.SatData) (derived : Snapshot.Params)
    (userId : string) : SatParams :=
  {| p_norad_id := Snapshot.norad_id fresh;
     p_name := Snapshot.name fresh;
     p_tle_line1 := Snapshot.tle_line1 fresh;
     p_tle_line2 := Snapshot.tle_line2 fresh;
     p_inclination := Snapshot.inclination fresh;
     p_mean_motion := Snapshot.mean_motion fresh;
     p_eccentricity := Snapshot.eccentricity fresh;
     p_semi_major_axis := Snapshot.semi_major_axis fresh;
     p_perigee := Snapshot.perigee fresh;
     p_apogee := Snapshot.apogee fresh;
     p_period := Snapshot.period fresh;
     p_altitude := Snapshot.altitude derived;
     p_orbit_type := Snapshot.orbit_type derived;
     p_orbital_velocity_kms := Snapshot.orbital_velocity_kms derived;
     p_orbital_velocity_kmh := Snapshot.orbital_velocity_kmh derived;
     p_user_id := userId |}.

(** [app.get("/api/satellite/:norad_id", ...)] *)
Definition getSatellite (srv : Server) (norad_id userId : string) (ctx : Ctx)
  : Response * Ctx :=
  match query srv (SelectSatellite norad_id userId) ctx with
  | (DbError, ctx1) => (Json 500 (ErrorBody "Server error"), ctx1)
  | (DbRows (sat :: _), ctx1) => (Json 200 (RowBody (Some sat)), ctx1)
  | (DbRows [], ctx1) =>
      match fetch srv norad_id ctx1 with
      | (None, ctx2) => (Json 404 (ErrorBody "Satellite not found"), ctx2)
      | (Some fresh, ctx2) =>
          let derived := Snapshot.calculateDerivedParams fresh in
          match query srv (UpsertSatellite (upsert_params fresh derived userId)) ctx2 with
          | (DbError, ctx3) => (Json 500 (ErrorBody "Server error"), ctx3)
          | (DbRows rows, ctx3) => (Json 200 (RowBody (List.hd_error rows)), ctx3)
          end
      end
  end.

(** [response.data.trim().split("\n").filter(Boolean)] *)
Definition reply_lines (data : string) : list string :=
  List.filter nonempty (split Job.LF (trim data)).

(** [app.get("/api/public/iss", ...)].  The request goes out on the same
    connection log as the ones of [fetchFullSatelliteData], as a request
    for object 25544; it asks for text format, and its reply is taken from
    [tle_reply]. *)
Definition publicIss (srv : Server) (ctx : Ctx) : Response * Ctx :=
  let '(ok, s1, n1) := ensureSession (upstream srv) (session ctx) (net ctx) in
  if negb ok then
    (Json 500 (ErrorBody "No Space-Track session"),
     {| session := s1; net := n1; ran := ran ctx |})
  else
    let ctx2 := {| session := s1; net := send (upstream srv) (Get "25544") n1;
                   ran := ran ctx |} in
    match tle_reply srv (List.length (sent n1)) with
    | None => (Json 500 (ErrorBody "Failed to fetch ISS TLE"), ctx2)
    | Some data =>
        let lines := reply_lines data in
        if (List.length lines <? 2)%nat then
          (Json 404 (ErrorBody "ISS TLE not found"), ctx2)
        else
          let first := Derive.text (Job.at_index 0 lines) in
          (Json 200
             (IssBody (if nonempty first then first else "ISS (ZARYA)")
                (Job.at_index 1 lines) (Job.at_index 2 lines)), ctx2)
    end.

End Routes.

Arguments DbRows {Row}.
Arguments DbError {Row}.
Arguments ErrorBody {Row}.
Arguments RowBody {Row}.
Arguments IssBody {Row}.
Arguments Json {Row}.
Arguments Threw {Row}.
Arguments upstream {Row}.
Arguments tle_reply {Row}.
Arguments db_reply {Row}.
Arguments query {Row}.
Arguments fetch {Row}.
Arguments getSatellite {Row}.
Arguments publicIss {Row}.

End Web.

(** * Specification-side definitions and sample inputs *)

(** ** Decimal numerals *)

Module Numeral.

(** The value of a list of decimal digits read after [acc]. *)
Fixpoint digits_value (ds : list Z) (acc : Z) : Z :=
  match ds with
  | [] => acc
  | d :: r => digits_value r (10 * acc + d)
  end.

Definition is_decimal_digit (d : Z) : Prop := 0 <= d <= 9.

(** The text does not start with a digit. *)
Definition no_digit_ahead (s : string) : Prop :=
  match s with
  | String c _ => is_digit c = false
  | EmptyString => True
  end.

(** The text of a sign. *)
Definition sign_text (sg : bool) : string := if sg then "-" else EmptyString.

End Numeral.

(** ** What the design document says about a derived record *)

Module DeriveSpec.

Import Derive.

(** The fields the document gives a decimal precision for. *)
Inductive Field : Type :=
| Inclination | Eccentricity | MeanMotion | SemiMajorAxis | Perigee | Apogee
| Period | Altitude | Velocity | Raan | ArgPerigee | MeanAnomaly.

(** "4 decimals for angles, 8 for eccentricity/mean motion, 2 for
    distances, 4 for velocity/period" *)
Definition documented (f : Field) : nat :=
  match f with
  | Inclination | Raan | ArgPerigee | MeanAnomaly => 4
  | Eccentricity | MeanMotion => 8
  | SemiMajorAxis | Perigee | Apogee | Altitude => 2
  | Velocity | Period => 4
  end.

(** The same table with the semi-major axis at four decimals. *)
Definition applied (f : Field) : nat :=
  match f with
  | SemiMajorAxis => 4
  | _ => documented f
  end.

(** The value of a field in the returned object. *)
Definition value (f : Field) (r : Derived) : number :=
  match f with
  | Inclination => inclination r
  | Eccentricity => eccentricity r
  | MeanMotion => mean_motion r
  | SemiMajorAxis => semi_major_axis_km r
  | Perigee => perigee_km r
  | Apogee => apogee_km r
  | Period => orbital_period_minutes r
  | Altitude => altitude_km r
  | Velocity => velocity_kms r
  | Raan => raan r
  | ArgPerigee => arg_perigee r
  | MeanAnomaly => mean_anomaly r
  end.

(** The quantity the function computed for a field before rounding it. *)
Definition computed (f : Field) (line2 : string) : number :=
  let meanMotion := Raw.meanMotion line2 in
  match f with
  | Inclination => Raw.inclination line2
  | Eccentricity => Raw.eccentricity line2
  | MeanMotion => meanMotion
  | SemiMajorAxis => Raw.semiMajorAxis meanMotion
  | Perigee => Raw.perigee meanMotion line2
  | Apogee => Raw.apogee meanMotion line2
  | Period => Raw.periodMin meanMotion
  | Altitude => Raw.altitude meanMotion
  | Velocity => Raw.velocity meanMotion
  | Raan => Raw.raan line2
  | ArgPerigee => Raw.argPerigee line2
  | MeanAnomaly => Raw.meanAnomaly line2
  end.

(** The number nearest to the [k]-decimal numeral nearest to [x]. *)
Definition nearest_decimal (k : nat) (x : number) : number :=
  of_decimal (less x (S754_zero false))
    (scaled_round_half_up x (Z.of_nat k)) (- Z.of_nat k).

(** [y] is [x] rounded to [k] decimals: NaN and the infinities are kept,
    a finite number below 1e21 goes to the nearest [k]-decimal numeral, and
    a larger one to whatever its exponential notation reads back as. *)
Definition has_precision (k : nat) (x y : number) : Prop :=
  match x with
  | S754_nan | S754_infinity _ => y = x
  | _ =>
      if less_eq (of_decimal false 1 21) (Math_abs x)
      then y = round_to k x
      else y = nearest_decimal k x
  end.


(** The record follows a table of precisions: every listed field is the
    computed quantity rounded to the decimals the table gives. *)
Definition follows_table (table : Field -> nat) (line2 : string) (r : Derived)
  : Prop :=
  forall f, has_precision (table f) (computed f line2) (value f r).




(** The rejection condition of the document: a missing line, or a mean
    motion that is not a number or not positive. *)
Definition must_reject (line1 line2 : option string) : Prop :=
  present line1 = false \/ present line2 = false
  \/ isNaN (Raw.meanMotion (text line2)) = true
  \/ less_eq (Raw.meanMotion (text line2)) (S754_zero false) = true.

End DeriveSpec.

(** ** Sample element sets *)

Module Samples.

(** ISS (ZARYA), epoch 2008-09-20, with a positive drag term. *)
Definition iss_line1 : string :=
  "1 25544U 98067A   08264.51782528 -.00002182  00000-0  11606-4 0  2927".
Definition iss_line2 : string :=
  "2 25544  51.6416 247.4627 0006703 130.5360 325.0288 15.72125391563537".


(** The same line 2 with a negative number in the mean-motion columns. *)
Definition iss_line2_negative_motion : string :=
  "2 25544  51.6416 247.4627 0006703 130.5360 325.0288 -5.72125391563537".

(** The ISS row as a sync pass stores it, and a second record under the
    same key that carries another name. *)
Definition iss_stored : Store.HistoryRow :=
  Store.history_row "25544" "ISS (ZARYA)" iss_line1 iss_line2 1221913540104 "user_1".
Definition iss_again : Store.HistoryRow :=
  Store.history_row "25544" "ISS" iss_line1 iss_line2 1221913540104 "user_1".

(** Hubble Space Telescope. *)
Definition hst_line1 : string :=
  "1 20580U 90037B   24060.50000000  .00001234  00000-0  65432-4 0  9991".
Definition hst_line2 : string :=
  "2 20580  28.4700 100.0000 0002500  90.0000 270.0000 15.15000000123456".

End Samples.

(** ** A sample satellite record *)

Module SnapshotSamples.

(** A geostationary satellite as [fetchFullSatelliteData] would build it
    from a record without SEMIMAJOR_AXIS: 1.0028 revolutions per day. *)
Definition geostationary : Snapshot.SatData :=
  {| Snapshot.norad_id := "40000"; Snapshot.name := "GEOSAT";
     Snapshot.tle_line1 := None; Snapshot.tle_line2 := None;
     Snapshot.inclination := lit "0.05"; Snapshot.mean_motion := lit "1.0028";
     Snapshot.eccentricity := lit "0.0002"; Snapshot.semi_major_axis := lit "0";
     Snapshot.perigee := lit "0"; Snapshot.apogee := lit "0";
     Snapshot.period := lit "0" |}.

End SnapshotSamples.

(** ** The epoch, the tables, the session and the jobs *)

Module EpochSpec.

(** The year a two-digit token stands for. *)
Definition pivot_year (token : Z) : Z :=
  if token <? 57 then 2000 + token else 1900 + token.

(** The time value of 1 January of year [y], 00:00 UTC. *)
Definition year_start (y : Z) : Z := Epoch.DayFromYear y * Epoch.msPerDay.

(** The instant [ms] milliseconds into day [day] of year [y], day 1 being
    1 January; none when it lies outside the range of a [Date]. *)
Definition in_year (y : Z) (elapsed : option (Z * Z)) : option Z :=
  match elapsed with
  | Some (day, ms) =>
      match Epoch.TimeClip (year_start y + (day - 1) * Epoch.msPerDay) with
      | Some t => Epoch.TimeClip (t + ms)
      | None => None
      end
  | None => None
  end.

(** The day of the year and the milliseconds into it that the cron job
    reads from columns 21-32; none when they do not hold a number. *)
Definition day_and_ms (line1 : string) : option (Z * Z) :=
  let dayOfYear := Epoch.dayOfYear line1 in
  let date := sub (add (lit "1") (Math_floor dayOfYear)) (lit "1") in
  if isFinite date then
    option_map (fun ms => (trunc_Z date, ms))
      (Epoch.toInteger
         (add (lit "0") (mul (rem dayOfYear (lit "1")) (lit "86400000"))))
  else None.

(** The same for the setter in whole seconds of the multi-tenant job and
    of the add-satellite route. *)
Definition day_and_seconds (line1 : string) : option (Z * Z) :=
  let dayOfYear := Epoch.dayOfYear line1 in
  let date := sub (add (lit "1") dayOfYear) (lit "1") in
  if isFinite date then
    option_map (fun s => (trunc_Z date, s * 1000))
      (Epoch.toInteger
         (add (lit "0") (mul (rem dayOfYear (lit "1")) (lit "86400"))))
  else None.

(** Line 1 of the ISS element set, day 264.51782528, with another year
    token in columns 19-20. *)
Definition with_token (token : string) : string :=
  (slice 0 18 Samples.iss_line1 ++ token ++ slice 20 69 Samples.iss_line1)%string.

End EpochSpec.

Module StoreSpec.

Import Store.

(** The key of a history row. *)
Definition history_key (r : HistoryRow) : string * Z * string :=
  (h_norad_id r, h_epoch r, h_user_id r).

(** The effect of the backfill statement on one stored row. *)
Definition overwrite (r x : DerivedRow) : DerivedRow :=
  if backfill_conflict r x
  then {| d_norad_id := d_norad_id x; d_name := d_name r;
          d_epoch := d_epoch x; d_values := d_values r;
          d_user_id := d_user_id x |}
  else x.

End StoreSpec.

Module SessionSamples.

Import Session.

(** An upstream that accepts every login and answers every request for
    element sets with "429 Too Many Requests", without delay. *)
Definition throttling : Upstream :=
  {| credentials := true;
     login_reply := fun _ => LoginOk (Some ["chocolatechip=1"]);
     get_reply := fun _ _ => GetFailed (Some 429);
     latency := fun _ => 0%nat |}.

Definition start : State :=
  {| cookies := None; lastLogin := 0; rateLimitUntil := 0 |}.

(** The clock shows [t] when the next request comes in. *)
Definition at_time (t : Z) (n : Net) : Net := {| clock := t; sent := sent n |}.

(** A first fetch at time 0 logs in and is throttled; a second one, at
    1170 s, is throttled again; the state and the network after it. *)
Definition after_first : option Snapshot.SatData * State * Net :=
  fetchFullSatelliteData throttling "25544" start {| clock := 0; sent := [] |}.

Definition after_second : option Snapshot.SatData * State * Net :=
  fetchFullSatelliteData throttling "25544" (snd (fst after_first))
    (at_time 1170000 (snd after_first)).

(** A third fetch 30.001 s later, inside the cooldown. *)
Definition after_third : option Snapshot.SatData * State * Net :=
  fetchFullSatelliteData throttling "25544" (snd (fst after_second))
    (at_time 1200001 (snd after_second)).

End SessionSamples.

Module SessionSpec.

Import Session.

(** The session exists and is at most twenty minutes old. *)
Definition fresh (s : State) (n : Net) : Prop :=
  has_cookies s = true /\ clock n - lastLogin s <= 20 * 60 * 1000.

End SessionSpec.

Module JobSamples.

Import Job Store.

Definition newline : string := String LF EmptyString.

(** Two tracked objects of one user, and nothing stored yet. *)
Definition two_objects : Database :=
  {| satellites :=
       [ {| s_norad_id := Some "25544"; s_user_id := Some "user_1" |};
         {| s_norad_id := Some "20580"; s_user_id := Some "user_1" |} ];
     tle_history := [];
     tle_derived := [] |}.

Definition start : State :=
  {| cookies := None; db := two_objects; trace := [] |}.

(** The same, with the session of an earlier run still held. *)
Definition start_with_session : State :=
  {| cookies := Some ["chocolatechip=1"]; db := two_objects; trace := [] |}.

(** The reply to the bulk query: both element sets, ISS first. *)
Definition bulk_reply : string :=
  (Samples.iss_line1 ++ newline ++ Samples.iss_line2 ++ newline
   ++ Samples.hst_line1 ++ newline ++ Samples.hst_line2 ++ newline)%string.

(** The reply to a per-object query in three-line format. *)
Definition object_reply (norad : string) : option string :=
  if (norad =? "25544")%string then
    Some ("0 ISS (ZARYA)" ++ newline ++ Samples.iss_line1 ++ newline
          ++ Samples.iss_line2 ++ newline)%string
  else if (norad =? "20580")%string then
    Some ("0 HST" ++ newline ++ Samples.hst_line1 ++ newline
          ++ Samples.hst_line2 ++ newline)%string
  else None.

(** Every login succeeds and every request for element sets times out. *)
Definition unreachable : World :=
  {| credentials := true;
     login_reply := fun _ => Some (Some ["chocolatechip=1"]);
     get_reply := fun _ _ => None;
     db_fault := fun _ _ => false |}.

(** The database rejects the history row of the ISS, and nothing else. *)
Definition rejects_iss (q : Query) : bool :=
  match q with
  | InsertHistory r => (h_norad_id r =? "25544")%string
  | _ => false
  end.

Definition bulk_world : World :=
  {| credentials := true;
     login_reply := fun _ => Some (Some ["chocolatechip=1"]);
     get_reply := fun _ _ => Some bulk_reply;
     db_fault := fun _ q => rejects_iss q |}.

Definition per_object_world : World :=
  {| credentials := true;
     login_reply := fun _ => Some (Some ["chocolatechip=1"]);
     get_reply := fun _ norad => object_reply norad;
     db_fault := fun _ q => rejects_iss q |}.

(** The database rejects the derived row of the ISS, and nothing else. *)
Definition rejects_iss_derived (q : Query) : bool :=
  match q with
  | InsertDerived r => (d_norad_id r =? "25544")%string
  | _ => false
  end.

Definition half_write_world : World :=
  {| credentials := true;
     login_reply := fun _ => Some (Some ["chocolatechip=1"]);
     get_reply := fun _ norad => object_reply norad;
     db_fault := fun _ q => rejects_iss_derived q |}.

Definition derived_ids (d : Database) : list string :=
  List.map d_norad_id (tle_derived d).

Definition is_retry_sleep (e : Event) : bool :=
  match e with Slept 30000 => true | _ => false end.

Definition is_fourth_failure (e : Event) : bool :=
  match e with Logged Error (AttemptFailed 4 _) => true | _ => false end.

(** A statement that writes a row of the given object. *)
Definition writes (norad : string) (e : Event) : bool :=
  match e with
  | Ran (InsertHistory r) => (h_norad_id r =? norad)%string
  | Ran (InsertDerived r) => (d_norad_id r =? norad)%string
  | _ => false
  end.

Definition stored_ids (d : Database) : list string :=
  List.map h_norad_id (tle_history d).

End JobSamples.

Module JobSpec.

Import Job.
Local Open Scope job_scope.

(** A computation that keeps the session and sends no request for element
    sets. *)
Definition quiet {A} (m : M A) : Prop :=
  forall st,
    cookies (snd (m st)) = cookies st
    /\ exists evs, trace (snd (m st)) = trace st ++ evs
                   /\ List.filter is_get evs = [].

(** The requests for the objects of a list, in order. *)
Definition requests_of (rows : list (string * string)) : list Event :=
  List.map (fun r => Sent (GetTLE (fst r))) rows.

(** What the [catch] block does before it retries. *)
Definition before_retry (retryCount : nat) (err : string) (st : State) : State :=
  snd ((console Error (AttemptFailed (S retryCount) err) ;;;
        console Log Retrying ;;;
        set_cookies None ;;;
        sleep 30000)%job st).

(** What the [catch] block does when it gives up. *)
Definition on_give_up (retryCount : nat) (err : string) (st : State) : State :=
  snd ((console Error (AttemptFailed (S retryCount) err) ;;;
        console Error GivingUp)%job st).

End JobSpec.

(** ** Sample inputs for the remaining functions *)

Module ColumnSamples.

(** Line 2 of the ISS cut after the eccentricity columns. *)
Definition iss_line2_cut : string := slice 0 33 Samples.iss_line2.

End ColumnSamples.

Module WebSamples.

Import Session.

(** The record Space-Track returns for the ISS. *)
Definition iss_json : SatJson :=
  {| OBJECT_NAME := Some "ISS (ZARYA)";
     TLE_LINE1 := Some Samples.iss_line1;
     TLE_LINE2 := Some Samples.iss_line2;
     INCLINATION := Some "51.6416";
     MEAN_MOTION := Some "15.72125391";
     ECCENTRICITY := Some "0.0006703";
     SEMIMAJOR_AXIS := Some "6730.960";
     PERIGEE := None;
     APOGEE := Some "not available";
     PERIOD := Some "91.59" |}.

(** An upstream that accepts every login and knows the ISS. *)
Definition serving : Upstream :=
  {| credentials := true;
     login_reply := fun _ => LoginOk (Some ["chocolatechip=1"]);
     get_reply := fun _ _ => GetOk (Some [iss_json]);
     latency := fun _ => 250%nat |}.

(** A session obtained at time 0, and a cooldown that lasts until 60 s. *)
Definition cooling : State :=
  {| cookies := Some ["chocolatechip=1"]; lastLogin := 0;
     rateLimitUntil := 60000 |}.

Definition at_30s : Net := {| clock := 30000; sent := [(0, Login)] |}.

(** A server whose table has no row yet, whose upsert returns nothing, and
    which answers the public route with the two lines of the ISS. *)
Definition server : Web.Server unit :=
  {| Web.upstream := serving;
     Web.tle_reply := fun _ =>
       Some (Samples.iss_line1 ++ String Job.LF Samples.iss_line2)%string;
     Web.db_reply := fun _ _ => Web.DbRows [] |}.

Definition idle : Web.Ctx :=
  {| Web.session := cooling; Web.net := at_30s; Web.ran := [] |}.

End WebSamples.

(** ** What a call of the fetch function may do *)

Module FetchSpec.

Import Session.

(** The fields of the object that are read with [parseFloat(...) || 0]. *)
Definition numeric_fields (d : Snapshot.SatData) : list number :=
  [Snapshot.inclination d; Snapshot.mean_motion d; Snapshot.eccentricity d;
   Snapshot.semi_major_axis d; Snapshot.perigee d; Snapshot.apogee d;
   Snapshot.period d].

(** The object is the one for [noradId], has a name, and none of its
    numeric fields is NaN. *)
Definition well_formed (noradId : string) (d : Snapshot.SatData) : Prop :=
  Snapshot.norad_id d = noradId
  /\ nonempty (Snapshot.name d) = true
  /\ List.forallb (fun x => negb (isNaN x)) (numeric_fields d) = true.

(** The requests a call sent, given the log before and after it. *)
Definition requests_between (before after : Net) (l : list Request) : Prop :=
  exists stamped, sent after = sent before ++ stamped /\ List.map snd stamped = l.

(** The session must be renewed: there is none, or it is older than twenty
    minutes. *)
Definition stale (s : State) (n : Net) : bool :=
  negb (has_cookies s) || (20 * 60 * 1000 <? clock n - lastLogin s).

End FetchSpec.

(** ** What a run of a job may do to the state *)

Module JobInvariant.

Import Job Store JobSamples.

(** Every state a computation reaches is related to the one it started
    from. *)
Definition respects (R : State -> State -> Prop) {A} (m : M A) : Prop :=
  forall st, R st (snd (m st)).

(** The tracked objects are untouched, both history tables have grown at
    their end only, and the keys of [tle_history] are still unique if they
    were. *)
Definition appends (st st' : State) : Prop :=
  satellites (db st') = satellites (db st)
  /\ (exists h, tle_history (db st') = tle_history (db st) ++ h)
  /\ (exists d, tle_derived (db st') = tle_derived (db st) ++ d)
  /\ (history_unique (tle_history (db st)) -> history_unique (tle_history (db st'))).

Definition is_exit (e : Event) : bool :=
  match e with PoolEnded | Exited _ => true | _ => false end.

(** The trace has grown by [evs]. *)
Definition logged (st st' : State) (evs : list Event) : Prop :=
  trace st' = trace st ++ evs.

(** The pool is still open and the process still runs. *)
Definition running (st st' : State) : Prop :=
  exists evs, logged st st' evs /\ List.filter is_exit evs = [].

(** At most [g] requests for element sets, [l] logins and [z] waits of
    thirty seconds have been added to the trace. *)
Definition spends (g l z : nat) (st st' : State) : Prop :=
  exists evs,
    logged st st' evs
    /\ (count is_get evs <= g)%nat
    /\ (count is_login evs <= l)%nat
    /\ (count is_retry_sleep evs <= z)%nat.

Definition silent : State -> State -> Prop := spends 0 0 0.

(** [if (!cookies && !(await loginToSpaceTrack()))] of the cron job lets
    the run go on: a session is held, or credentials are configured and
    the login request gets a reply. *)
Definition session_available (w : World) (st : State) : bool :=
  match cookies st with
  | Some _ => true
  | None =>
      credentials w
      && match login_reply w (count is_sent (trace st)) with
         | Some _ => true
         | None => false
         end
  end.

End JobInvariant.

(** ** Samples for the job in TLE format and for the backfill script *)

Module TleSamples.

Import Job Store.

(** The reply to a query in TLE format: the two lines of the element set,
    without a name line. *)
Definition two_line_reply : string :=
  (Samples.iss_line1 ++ JobSamples.newline ++ Samples.iss_line2
   ++ JobSamples.newline)%string.

Definition two_line_world : World :=
  {| credentials := true;
     login_reply := fun _ => Some (Some ["chocolatechip=1"]);
     get_reply := fun _ _ => Some two_line_reply;
     db_fault := fun _ _ => false |}.

End TleSamples.

Module BackfillSpec.

Import Store.

(** The rows the loop of the backfill script writes, in order: one for
    each history row whose lines can be derived. *)
Definition written (rows : list HistoryRow) : list DerivedRow :=
  List.flat_map
    (fun row =>
       match Derive.calculateDerived (Some (h_tle_line1 row))
               (Some (h_tle_line2 row)) with
       | Some derived => [backfill_row row derived]
       | None => []
       end) rows.

(** The statements of the loop run one after the other. *)
Definition upsert_all (rs : list DerivedRow) (t : list DerivedRow)
  : list DerivedRow :=
  List.fold_left (fun t r => fst (upsert_derived r t)) rs t.

(** What the statements of a run do to one stored row. *)
Definition overwrite_all (rs : list DerivedRow) (x : DerivedRow) : DerivedRow :=
  List.fold_left (fun x r => StoreSpec.overwrite r x) rs x.

(** No statement is rejected. *)
Definition no_fault : nat -> DerivedRow -> bool := fun _ _ => false.

End BackfillSpec.

(** ** The sign of a number *)

Module Shape.



End Shape.

(** * Properties of the runtime model *)

Import Numeral.

(** ** Decimal numerals *)


Lemma digits_value_app ds es acc :
  digits_value (ds ++ es) acc = digits_value es (digits_value ds acc).
Proof.
  revert acc. induction ds as [|d ds IH]; intros acc; simpl; auto.
Qed.

Lemma digits_value_shift ds acc :
  digits_value ds acc = acc * 10 ^ Z.of_nat (List.length ds) + digits_value ds 0.
Proof.
  revert acc. induction ds as [|d ds IH]; intros acc.
  - simpl. lia.
  - cbn [digits_value List.length].
    rewrite (IH (10 * acc + d)), (IH (10 * 0 + d)).
    rewrite Nat2Z.inj_succ, Z.pow_succ_r by lia. lia.
Qed.

Lemma digits_fuel_spec fuel :
  forall n acc, 0 <= n < 10 ^ Z.of_nat (S fuel) ->
  exists ds, digits_fuel (S fuel) n acc = ds ++ acc
             /\ ds <> []
             /\ Forall is_decimal_digit ds
             /\ digits_value ds 0 = n.
Proof.
  induction fuel as [|fuel IH]; intros n acc Hn.
  - exists [n]. cbn [digits_fuel].
    assert (n < 10) by (change (10 ^ Z.of_nat 1) with 10 in Hn; lia).
    destruct (Z.ltb_spec n 10); [|lia].
    repeat split; try discriminate; try (simpl; lia).
    constructor; [unfold is_decimal_digit; lia | constructor].
  - remember (S fuel) as f eqn:Ef. cbn [digits_fuel].
    destruct (Z.ltb_spec n 10) as [Hlt|Hge].
    + exists [n]. repeat split; try discriminate; try (simpl; lia).
      constructor; [unfold is_decimal_digit; lia | constructor].
    + destruct (IH (n / 10) (n mod 10 :: acc)) as (ds & E & Hne & Hall & Hv).
      { subst f. rewrite Nat2Z.inj_succ, Z.pow_succ_r in Hn by lia.
        split; [apply Z.div_pos; lia|].
        apply Z.div_lt_upper_bound; lia. }
      subst f. exists (ds ++ [n mod 10]). rewrite E, <- List.app_assoc.
      repeat split.
      * destruct ds; discriminate.
      * apply Forall_app; split; [assumption|].
        constructor; [|constructor].
        unfold is_decimal_digit. pose proof (Z.mod_pos_bound n 10). lia.
      * rewrite digits_value_app. cbn [digits_value]. rewrite Hv.
        pose proof (Z.div_mod n 10 ltac:(lia)). lia.
Qed.

Lemma digits_spec n :
  0 <= n ->
  digits n <> [] /\ Forall is_decimal_digit (digits n)
  /\ digits_value (digits n) 0 = n.
Proof.
  intros Hn. unfold digits.
  destruct (digits_fuel_spec (Z.to_nat (Z.log2 n)) n []) as (ds & E & H1 & H2 & H3).
  - split; [assumption|].
    rewrite Nat2Z.inj_succ, Z2Nat.id by apply Z.log2_nonneg.
    destruct (Z.eq_dec n 0) as [->|Hnz]; [reflexivity|].
    pose proof (Z.log2_spec n ltac:(lia)) as [_ Hup].
    eapply Z.lt_le_trans; [exact Hup|].
    apply Z.pow_le_mono_l. lia.
  - rewrite E, List.app_nil_r. auto.
Qed.

(** ** Strings as lists of characters *)

Lemma string_of_list_app a b :
  string_of_list_ascii (a ++ b)
  = (string_of_list_ascii a ++ string_of_list_ascii b)%string.
Proof. induction a as [|c a IH]; simpl; [reflexivity | now rewrite IH]. Qed.

Lemma string_length_of_list a :
  String.length (string_of_list_ascii a) = List.length a.
Proof. induction a as [|c a IH]; simpl; [reflexivity | now rewrite IH]. Qed.

Lemma substring_of_list a n m :
  String.substring n m (string_of_list_ascii a)
  = string_of_list_ascii (List.firstn m (List.skipn n a)).
Proof.
  revert n m. induction a as [|c a IH]; intros n m.
  - destruct n, m; reflexivity.
  - destruct n as [|n].
    + destruct m as [|m]; [reflexivity|]. simpl. now rewrite IH.
    + simpl. apply IH.
Qed.

Lemma string_app_assoc (a b c : string) :
  ((a ++ b) ++ c = a ++ (b ++ c))%string.
Proof. induction a as [|x a IH]; simpl; [reflexivity | now rewrite IH]. Qed.

Lemma zeros_of_list n :
  zeros n = string_of_list_ascii (List.repeat "0"%char n).
Proof. induction n as [|n IH]; simpl; [reflexivity | now rewrite IH]. Qed.

Lemma digit_char_spec d :
  is_decimal_digit d ->
  is_digit (digit_char d) = true /\ digit_val (digit_char d) = d
  /\ is_ws (digit_char d) = false.
Proof.
  unfold is_decimal_digit. intros H.
  assert (d = 0 \/ d = 1 \/ d = 2 \/ d = 3 \/ d = 4 \/ d = 5 \/ d = 6
          \/ d = 7 \/ d = 8 \/ d = 9) as Hd by lia.
  repeat (destruct Hd as [-> | Hd]; [repeat split; reflexivity|]).
  subst d; repeat split; reflexivity.
Qed.


Lemma read_digits_of_digits ds :
  forall rest acc cnt,
  Forall is_decimal_digit ds -> no_digit_ahead rest ->
  read_digits (string_of_digits ds ++ rest) acc cnt
  = (digits_value ds acc, cnt + Z.of_nat (List.length ds), rest).
Proof.
  induction ds as [|d ds IH]; intros rest acc cnt Hall Hrest.
  - cbn. destruct rest as [|c r]; cbn.
    + now rewrite Z.add_0_r.
    + cbn in Hrest. rewrite Hrest. now rewrite Z.add_0_r.
  - inversion Hall as [|? ? Hd Hds]; subst.
    destruct (digit_char_spec d Hd) as (E1 & E2 & _).
    unfold string_of_digits in *. cbn [List.map string_of_list_ascii String.append read_digits].
    rewrite E1, E2, IH by assumption.
    cbn [List.length digits_value]. rewrite Nat2Z.inj_succ.
    f_equal. f_equal. lia.
Qed.

(** ** Rounding never produces NaN *)











(** ** [parseFloat] on text that starts with a digit *)

Lemma digit_code c : is_digit c = true -> 48 <= code c <= 57.
Proof. unfold is_digit. intros H. apply andb_prop in H. lia. Qed.

Lemma digit_not_ws c : is_digit c = true -> is_ws c = false.
Proof.
  intros H. apply digit_code in H. unfold is_ws.
  repeat match goal with
         | |- context [?a <=? ?b] => destruct (Z.leb_spec a b)
         | |- context [?a =? ?b] => destruct (Z.eqb_spec a b)
         end; try reflexivity; lia.
Qed.

Lemma digit_not_char c (x : ascii) :
  is_digit c = true -> (code x < 48 \/ 57 < code x) -> c <> x.
Proof. intros H Hx ->. apply digit_code in H. lia. Qed.





(** ** Reading back what [toFixed] prints *)


Lemma string_app_nil_r (a : string) : (a ++ EmptyString)%string = a.
Proof. induction a as [|c a IH]; simpl; [reflexivity | now rewrite IH]. Qed.

Lemma parseFloat_signed sg c r :
  is_digit c = true ->
  parseFloat (sign_text sg ++ String c r)
  = (if String.prefix "Infinity" (String c r) then S754_infinity sg
     else
       let '(ip, ni, r1) := read_digits (String c r) 0 0 in
       let '(m, nf, r2) :=
         match r1 with
         | String c r => if Ascii.eqb c "." then read_digits r ip 0 else (ip, 0, r1)
         | EmptyString => (ip, 0, r1)
         end in
       if ni + nf =? 0 then NaN
       else of_decimal sg m (read_exponent r2 - nf)).
Proof.
  intros Hc. unfold parseFloat. destruct sg; cbn [sign_text String.append].
  - reflexivity.
  - cbn [trimStart]. rewrite (digit_not_ws c Hc). cbn [read_sign].
    assert (Ascii.eqb c "-" = false) as ->.
    { apply Ascii.eqb_neq, digit_not_char; [assumption | left; reflexivity]. }
    assert (Ascii.eqb c "+" = false) as ->.
    { apply Ascii.eqb_neq, digit_not_char; [assumption | left; reflexivity]. }
    reflexivity.
Qed.

Lemma digits_head A :
  A <> [] -> Forall is_decimal_digit A ->
  exists c r, string_of_digits A = String c r /\ is_digit c = true.
Proof.
  intros Hne Hall. destruct A as [|a A]; [congruence|].
  inversion Hall; subst.
  exists (digit_char a), (string_of_digits A). split; [reflexivity|].
  now apply digit_char_spec.
Qed.

Lemma not_Infinity_prefix c r :
  is_digit c = true -> String.prefix "Infinity" (String c r) = false.
Proof.
  intros Hc. cbn [String.prefix].
  destruct (ascii_dec "I" c) as [E|E]; [|reflexivity].
  exfalso. revert E. apply not_eq_sym, digit_not_char; [assumption|].
  right. reflexivity.
Qed.

(** A numeral without a fraction. *)
Lemma parseFloat_integer sg A :
  A <> [] -> Forall is_decimal_digit A ->
  parseFloat (sign_text sg ++ string_of_digits A)
  = of_decimal sg (digits_value A 0) 0.
Proof.
  intros Hne Hall.
  destruct (digits_head A Hne Hall) as (c & r & E & Hc).
  rewrite E, (parseFloat_signed sg c r Hc), (not_Infinity_prefix c r Hc), <- E.
  rewrite <- (string_app_nil_r (string_of_digits A)).
  rewrite (read_digits_of_digits A EmptyString 0 0 Hall I).
  destruct (Z.eqb_spec (0 + Z.of_nat (List.length A) + 0) 0) as [E0|_].
  - destruct A; [congruence | cbn [List.length] in E0; lia].
  - cbn [read_exponent]. reflexivity.
Qed.

(** A numeral with a fraction of [length B] digits. *)
Lemma parseFloat_fraction sg A B :
  A <> [] -> Forall is_decimal_digit A -> Forall is_decimal_digit B ->
  parseFloat (sign_text sg ++ string_of_digits A ++ "." ++ string_of_digits B)
  = of_decimal sg (digits_value (A ++ B) 0) (- Z.of_nat (List.length B)).
Proof.
  intros Hne HA HB.
  destruct (digits_head A Hne HA) as (c & r & E & Hc).
  rewrite E. cbn [String.append].
  rewrite (parseFloat_signed sg c _ Hc), (not_Infinity_prefix c _ Hc).
  replace (String c (r ++ String "." (string_of_digits B)))%string
    with (string_of_digits A ++ String "." (string_of_digits B))%string
    by (rewrite E; reflexivity).
  rewrite (read_digits_of_digits A (String "." (string_of_digits B)) 0 0 HA
             eq_refl).
  change (Ascii.eqb "." ".") with true. cbv iota.
  rewrite <- (string_app_nil_r (string_of_digits B)).
  rewrite (read_digits_of_digits B EmptyString (digits_value A 0) 0 HB I).
  destruct (Z.eqb_spec (0 + Z.of_nat (List.length A) + (0 + Z.of_nat (List.length B))) 0)
    as [E0|_].
  - destruct A; [congruence | cbn [List.length] in E0; lia].
  - cbn [read_exponent]. rewrite digits_value_app. f_equal; lia.
Qed.

Lemma scaled_round_half_up_nonneg x f :
  0 <= f -> 0 <= scaled_round_half_up x f.
Proof.
  intros Hf. destruct x as [| | |s m e]; cbn [scaled_round_half_up]; try lia.
  pose proof (Z.pow_nonneg 10 f ltac:(lia)).
  destruct (Z.leb_spec 0 e).
  - pose proof (Z.pow_nonneg 2 e ltac:(lia)). nia.
  - pose proof (Z.pow_nonneg 2 (- e) ltac:(lia)).
    apply Z.div_pos; [nia|].
    apply Z.pow_pos_nonneg; lia.
Qed.

Lemma Forall_firstn {A} (P : A -> Prop) n l : Forall P l -> Forall P (List.firstn n l).
Proof.
  revert n. induction l as [|a l IH]; intros [|n] H; cbn; auto.
  inversion H; subst. constructor; auto.
Qed.

Lemma Forall_skipn {A} (P : A -> Prop) n l : Forall P l -> Forall P (List.skipn n l).
Proof.
  revert n. induction l as [|a l IH]; intros [|n] H; cbn; auto.
  inversion H; subst. auto.
Qed.

Lemma string_of_digits_app a b :
  string_of_digits (a ++ b) = (string_of_digits a ++ string_of_digits b)%string.
Proof. unfold string_of_digits. now rewrite List.map_app, string_of_list_app. Qed.

Lemma zeros_digits p : zeros p = string_of_digits (List.repeat 0 p).
Proof. unfold string_of_digits. now rewrite zeros_of_list, List.map_repeat. Qed.

Lemma length_string_of_digits ds :
  String.length (string_of_digits ds) = List.length ds.
Proof. unfold string_of_digits. now rewrite string_length_of_list, List.length_map. Qed.

Lemma substring_digits n m D :
  String.substring n m (string_of_digits D)
  = string_of_digits (List.firstn m (List.skipn n D)).
Proof.
  unfold string_of_digits.
  now rewrite substring_of_list, List.skipn_map, List.firstn_map.
Qed.

Lemma digits_value_zeros p acc :
  digits_value (List.repeat 0 p) acc = acc * 10 ^ Z.of_nat p.
Proof.
  revert acc. induction p as [|p IH]; intros acc.
  - simpl. lia.
  - cbn [List.repeat digits_value]. rewrite IH, Nat2Z.inj_succ, Z.pow_succ_r by lia.
    lia.
Qed.

Lemma Forall_zeros p : Forall is_decimal_digit (List.repeat 0 p).
Proof.
  induction p; cbn; constructor; auto. unfold is_decimal_digit. lia.
Qed.

(** The integer part and the [f] fraction digits that [toFixed] lays out
    from the digits of the scaled integer. *)
Lemma parseFloat_layout sg ds f :
  ds <> [] -> Forall is_decimal_digit ds ->
  let m := string_of_digits ds in
  let m' := (zeros (S f - String.length m) ++ m)%string in
  let k := String.length m' in
  parseFloat (sign_text sg ++ String.substring 0 (k - f) m' ++ "."
              ++ String.substring (k - f) f m')
  = of_decimal sg (digits_value ds 0) (- Z.of_nat f).
Proof.
  intros Hne Hall m m' k.
  set (D := List.repeat 0 (S f - List.length ds) ++ ds).
  assert (m' = string_of_digits D) as Em'.
  { subst m' m D. now rewrite length_string_of_digits, zeros_digits, string_of_digits_app. }
  assert (k = List.length D) as Ek.
  { subst k. now rewrite Em', length_string_of_digits. }
  assert (S f <= List.length D)%nat as Hlen.
  { subst D. rewrite List.length_app, List.repeat_length. lia. }
  assert (Forall is_decimal_digit D) as HD.
  { subst D. apply Forall_app. split; [apply Forall_zeros | assumption]. }
  assert (digits_value D 0 = digits_value ds 0) as HvD.
  { subst D. now rewrite digits_value_app, digits_value_zeros. }
  rewrite Em', !substring_digits, Ek. cbn [List.skipn].
  clearbody D. clear Em' Ek m m' k.
  set (A := List.firstn (List.length D - f) D).
  set (B := List.firstn f (List.skipn (List.length D - f) D)).
  assert (B = List.skipn (List.length D - f) D) as EB.
  { subst B. apply List.firstn_all2. rewrite List.length_skipn. lia. }
  assert (List.length B = f) as LB.
  { rewrite EB, List.length_skipn. lia. }
  assert (List.length A = (List.length D - f)%nat) as LA.
  { subst A. rewrite List.length_firstn. lia. }
  rewrite (parseFloat_fraction sg A B).
  - rewrite LB. f_equal.
    subst A. now rewrite EB, List.firstn_skipn.
  - intros E. rewrite E in LA. cbn [List.length] in LA. lia.
  - subst A. now apply Forall_firstn.
  - rewrite EB. now apply Forall_skipn.
Qed.

(** [parseFloat(x.toFixed(f))] for a finite [x] below 1e21 is the number
    nearest to the decimal [n / 10^f], where [n] is the integer nearest to
    [|x| * 10^f] (ties upward). *)
Lemma round_to_small x f :
  isFinite x = true ->
  less_eq (of_decimal false 1 21) (Math_abs x) = false ->
  Derive.round_to f x
  = of_decimal (less x (S754_zero false))
      (scaled_round_half_up x (Z.of_nat f)) (- Z.of_nat f).
Proof.
  intros Hfin Hsmall. unfold Derive.round_to.
  set (n := scaled_round_half_up x (Z.of_nat f)).
  destruct (digits_spec n) as (Hne & Hall & Hv).
  { apply scaled_round_half_up_nonneg. lia. }
  assert (toFixed x f
          = match f with
            | O => (sign_text (less x (S754_zero false))
                    ++ string_of_digits (digits n))%string
            | _ =>
                let m := string_of_digits (digits n) in
                let m' := (zeros (S f - String.length m) ++ m)%string in
                let k := String.length m' in
                (sign_text (less x (S754_zero false))
                 ++ String.substring 0 (k - f) m' ++ "."
                 ++ String.substring (k - f) f m')%string
            end) as ->.
  { unfold toFixed.
    destruct x as [s| | |s m e]; try discriminate Hfin;
      rewrite Hsmall; reflexivity. }
  destruct f as [|f'].
  - rewrite parseFloat_integer by assumption. now rewrite Hv.
  - rewrite parseFloat_layout by assumption. now rewrite Hv.
Qed.

(** ** Numbers of 1e21 and above: exponential notation *)





(** * The derivation engine *)


Section DeriveFacts.

Import Derive DeriveSpec.

Lemma lit_0 : lit "0" = S754_zero false.
Proof. reflexivity. Qed.

Lemma positive_of_guard x :
  truthy x = true -> less_eq x (S754_zero false) = false ->
  less (S754_zero false) x = true.
Proof. destruct x as [s|[|]| |[|] m e]; cbn; congruence. Qed.

Lemma negative_of_guard x :
  truthy x = true -> less_eq x (S754_zero false) = true ->
  less x (S754_zero false) = true.
Proof. destruct x as [s|[|]| |[|] m e]; cbn; congruence. Qed.

(** The shared parser rejects every input the document tells it to. *)
Lemma populateDerived_rejects line1 line2 :
  must_reject line1 line2 -> populateDerived line1 line2 = None.
Proof.
  unfold must_reject, populateDerived. rewrite lit_0.
  intros [H|[H|[H|H]]].
  - now rewrite H.
  - rewrite H. cbn [negb]. now rewrite orb_true_r.
  - destruct (negb (present line1) || negb (present line2)); [reflexivity|].
    destruct (Raw.meanMotion (text line2)); try discriminate H. reflexivity.
  - destruct (negb (present line1) || negb (present line2)); [reflexivity|].
    rewrite H. now rewrite orb_true_r.
Qed.

(** What a returned record tells about the input. *)
Lemma populateDerived_accepts line1 line2 r :
  populateDerived line1 line2 = Some r ->
  present line1 = true /\ present line2 = true
  /\ less (S754_zero false) (Raw.meanMotion (text line2)) = true
  /\ r = derived (text line1) (text line2) (Raw.meanMotion (text line2)).
Proof.
  unfold populateDerived. rewrite lit_0.
  destruct (present line1), (present line2); try discriminate. cbn [negb orb].
  destruct (truthy (Raw.meanMotion (text line2))) eqn:Ht; try discriminate.
  destruct (less_eq (Raw.meanMotion (text line2)) (S754_zero false)) eqn:Hle;
    try discriminate.
  cbn [negb orb]. intros [= <-]. auto using positive_of_guard.
Qed.

(** The copy kept by the backfill script returns a record for every
    negative mean motion. *)
Lemma calculateDerived_accepts_every_negative line1 line2 :
  present line1 = true -> present line2 = true ->
  less (Raw.meanMotion (text line2)) (S754_zero false) = true ->
  calculateDerived line1 line2 <> None.
Proof.
  intros H1 H2 Hneg. unfold calculateDerived. rewrite H1, H2. cbn [negb orb].
  destruct (Raw.meanMotion (text line2)) as [s|s| |s m e];
    try discriminate Hneg; cbn [truthy negb]; discriminate.
Qed.

(** C1.  The rejection rule of the document -- absent when a line is
    missing or the mean motion of columns 53-63 is not a positive number --
    is not followed by the copy of the derivation kept by the backfill
    script and by the multi-tenant sync job: on an element set whose mean
    motion columns read -5.72125391 the shared parser [populateDerived]
    returns absent, while [calculateDerived] returns a record. *)
Theorem calculateDerived_accepts_negative_mean_motion :
  must_reject (Some Samples.iss_line1) (Some Samples.iss_line2_negative_motion)
  /\ less (Raw.meanMotion Samples.iss_line2_negative_motion) (S754_zero false) = true
  /\ populateDerived (Some Samples.iss_line1)
       (Some Samples.iss_line2_negative_motion) = None
  /\ calculateDerived (Some Samples.iss_line1)
       (Some Samples.iss_line2_negative_motion) <> None.
Proof.
  split; [|split; [|split]].
  - right. right. right. vm_compute. reflexivity.
  - vm_compute. reflexivity.
  - vm_compute. reflexivity.
  - vm_compute. discriminate.
Qed.

(** The drag term of an element set is NaN whenever its mantissa carries
    a minus sign: the first "-" of the field is then the sign, not the
    exponent mark.  The record of the published ISS element set of
    2008-09-20 is returned with a NaN drag term. *)
Lemma negative_drag_term_reads_NaN :
  Raw.bstar
    "1 25544U 98067A   08264.51782528 -.00002182  00000-0 -11606-4 0  2927"
  = NaN
  /\ Raw.bstar Samples.iss_line1 = lit "11606e-4".
Proof. split; vm_compute; reflexivity. Qed.


Import Shape.





























Lemma round_to_has_precision k x : has_precision k x (round_to k x).
Proof.
  destruct x as [s|[|]| |s m e].
  - cbn [has_precision].
    change (less_eq (of_decimal false 1 21) (Math_abs (S754_zero s))) with false.
    cbv iota. now apply round_to_small.
  - reflexivity.
  - reflexivity.
  - reflexivity.
  - cbn [has_precision].
    destruct (less_eq (of_decimal false 1 21) (Math_abs (S754_finite s m e)))
      eqn:Hbig; [reflexivity|].
    now apply round_to_small.
Qed.

(** C3, as stated, fails: the semi-major axis of the ISS element set is
    stored as 6730.9607, not as the two-decimal 6730.96. *)
Lemma semi_major_axis_not_two_decimals :
  exists r,
    populateDerived (Some Samples.iss_line1) (Some Samples.iss_line2) = Some r
    /\ semi_major_axis_km r = lit "6730.9607"
    /\ ~ follows_table documented Samples.iss_line2 r.
Proof.
  eexists. split; [vm_compute; reflexivity|]. split; [vm_compute; reflexivity|].
  intros H. specialize (H SemiMajorAxis). vm_compute in H. discriminate H.
Qed.

(** C3, amended.  For every input the derivation accepts, each field is
    rounded to a fixed number of decimals: 4 for every angle, 8 for
    eccentricity and mean motion, 4 for the semi-major axis, 2 for perigee,
    apogee and altitude, and 4 for velocity and orbital period. *)
Theorem populateDerived_follows_applied_table line1 line2 r :
  populateDerived line1 line2 = Some r ->
  follows_table applied (text line2) r.
Proof.
  intros H. apply populateDerived_accepts in H as (_ & _ & _ & ->).
  intros f. destruct f; cbn [applied documented computed value]; unfold derived;
    cbn -[round_to]; apply round_to_has_precision.
Qed.

Lemma populateDerived_follows_applied_table_witness :
  populateDerived (Some Samples.iss_line1) (Some Samples.iss_line2)
  = Some (derived Samples.iss_line1 Samples.iss_line2
            (Raw.meanMotion Samples.iss_line2))
  /\ follows_table applied Samples.iss_line2
       (derived Samples.iss_line1 Samples.iss_line2
          (Raw.meanMotion Samples.iss_line2)).
Proof.
  split; [vm_compute; reflexivity|].
  apply (populateDerived_follows_applied_table
           (Some Samples.iss_line1) (Some Samples.iss_line2)).
  vm_compute; reflexivity.
Defined.

(** Away from a negative mean motion the three copies return the same
    value: the guard [meanMotion <= 0] is the only line in which they
    differ. *)
Lemma derivations_agree_unless_negative line1 line2 :
  less (Raw.meanMotion (text line2)) (S754_zero false) = false ->
  populateDerived line1 line2 = calculateDerived line1 line2
  /\ calculateDerived_cron line1 line2 = calculateDerived line1 line2.
Proof.
  intros Hneg. unfold populateDerived, calculateDerived_cron, calculateDerived.
  rewrite lit_0.
  destruct (negb (present line1) || negb (present line2)); [auto|].
  destruct (truthy (Raw.meanMotion (text line2))) eqn:Ht; [|auto].
  destruct (less_eq (Raw.meanMotion (text line2)) (S754_zero false)) eqn:Hle;
    [|auto].
  rewrite (negative_of_guard _ Ht Hle) in Hneg. discriminate Hneg.
Qed.

(** C10.  The copy of the derivation kept by the backfill script is not
    extensionally equal to the shared parser: on mean-motion columns that
    read -5.72125391 the shared parser and the copy of the cron job return
    absent, while the backfill copy, which lacks the guard
    [meanMotion <= 0] of its siblings, returns a record whose mean motion
    is -5.72125391. *)
Theorem derivations_differ_on_negative_mean_motion :
  populateDerived (Some Samples.iss_line1)
    (Some Samples.iss_line2_negative_motion) = None
  /\ calculateDerived_cron (Some Samples.iss_line1)
       (Some Samples.iss_line2_negative_motion) = None
  /\ (exists r,
        calculateDerived (Some Samples.iss_line1)
          (Some Samples.iss_line2_negative_motion) = Some r
        /\ mean_motion r = lit "-5.72125391")
  /\ populateDerived (Some Samples.iss_line1)
       (Some Samples.iss_line2_negative_motion)
     <> calculateDerived (Some Samples.iss_line1)
          (Some Samples.iss_line2_negative_motion).
Proof.
  split; [vm_compute; reflexivity|]. split; [vm_compute; reflexivity|].
  split; [eexists; split; vm_compute; reflexivity|].
  vm_compute. discriminate.
Qed.

End DeriveFacts.


(** * The orbit-regime classifier *)


Section ClassifierFacts.

Import Snapshot.

(** Every altitude from 33786 km up to, but not including, 35786 km is
    classified MEO: the test [altitude < 35786] is met before the GEO test
    is reached. *)
Lemma geo_band_below_is_meo altitude :
  less_eq (lit "33786") altitude = true ->
  less altitude (lit "35786") = true ->
  classify altitude = "MEO".
Proof.
  unfold classify.
  change (lit "2000") with (S754_finite false 8796093022208000 (-42)).
  change (lit "33786") with (S754_finite false 4643512482004992 (-37)).
  intros Hlo Hhi. rewrite Hhi.
  assert (less altitude (S754_finite false 8796093022208000 (-42)) = false) as ->;
    [|reflexivity].
  clear Hhi. unfold less, less_eq, SFltb, SFleb, SFcompare in *.
  destruct altitude as [s|[|]| |[|] m e]; try discriminate Hlo; try reflexivity.
  destruct (Z.compare_spec (-37) e) as [E|Hlt|Hgt]; try discriminate Hlo.
  - now rewrite <- E.
  - destruct (Z.compare_spec e (-42)); try reflexivity; lia.
Qed.

(** C4.  The classifier returns LEO below 2000 km and HEO above
    37786 km, but an altitude within 2000 km below 35786 km is never GEO:
    at 35000 km, and for a geostationary satellite of 1.0028 revolutions
    per day (altitude 35784 km), it returns MEO. *)
Theorem classify_geo_band_as_meo :
  classify (lit "35000") = "MEO"
  /\ altitude (calculateDerivedParams SnapshotSamples.geostationary) = lit "35784"
  /\ orbit_type (calculateDerivedParams SnapshotSamples.geostationary) = "MEO"
  /\ classify (lit "1999.99") = "LEO"
  /\ classify (lit "35786") = "GEO"
  /\ classify (lit "37786") = "GEO"
  /\ classify (lit "37786.01") = "HEO".
Proof. repeat split; vm_compute; reflexivity. Qed.

End ClassifierFacts.

(** * The epoch resolver *)

Section EpochFacts.

Import Epoch EpochSpec.

Lemma decimal_digit_cases (P : Z -> Prop) :
  P 0 -> P 1 -> P 2 -> P 3 -> P 4 -> P 5 -> P 6 -> P 7 -> P 8 -> P 9 ->
  forall d, 0 <= d <= 9 -> P d.
Proof.
  intros ? ? ? ? ? ? ? ? ? ? d H.
  assert (d = 0 \/ d = 1 \/ d = 2 \/ d = 3 \/ d = 4 \/ d = 5 \/ d = 6
          \/ d = 7 \/ d = 8 \/ d = 9) as Hd by lia.
  repeat (destruct Hd as [-> | Hd]; [assumption|]). now subst.
Qed.


(** The year handed to [Date.UTC]: for the two-digit token [ab] in
    columns 19-20 of line 1 it is 2000 + ab below 57 and 1900 + ab from 57
    on. *)
Lemma fullYear_of_token line1 a b :
  0 <= a <= 9 -> 0 <= b <= 9 ->
  slice 18 20 line1 = String (digit_char a) (String (digit_char b) EmptyString) ->
  year line1 = of_Z (10 * a + b)
  /\ fullYear line1 = of_Z (pivot_year (10 * a + b)).
Proof.
  intros Ha Hb E. unfold fullYear, year. rewrite E. clear E line1.
  revert b Hb. pattern a. revert a Ha.
  apply decimal_digit_cases; intros b Hb; pattern b; revert b Hb;
    apply decimal_digit_cases; split; vm_compute; reflexivity.
Qed.

(** [Date.UTC(fullYear, 0)] is the first instant of that year. *)
Lemma utcYear_of_token a b :
  0 <= a <= 9 -> 0 <= b <= 9 ->
  utcYear (of_Z (pivot_year (10 * a + b))) = Some (pivot_year (10 * a + b))
  /\ TimeClip (DayFromYear (pivot_year (10 * a + b)) * msPerDay)
     = Some (year_start (pivot_year (10 * a + b))).
Proof.
  intros Ha Hb. revert b Hb. pattern a. revert a Ha.
  apply decimal_digit_cases; intros b Hb; pattern b; revert b Hb;
    apply decimal_digit_cases; split; vm_compute; reflexivity.
Qed.

(** A date built in a year whose first instant is in range. *)
Lemma makeDate_in_year y n date offset :
  utcYear y = Some n ->
  TimeClip (DayFromYear n * msPerDay) = Some (year_start n) ->
  makeDate y date offset
  = in_year n
      (if isFinite date
       then option_map (fun ms => (trunc_Z date, ms)) offset
       else None).
Proof.
  intros Ey Et. unfold makeDate. rewrite Ey, Et.
  destruct offset as [ms|]; [|now destruct (isFinite date)].
  destruct (isFinite date); [|reflexivity].
  cbn [option_map in_year]. unfold year_start.
  replace ((DayFromYear n + trunc_Z date - 1) * msPerDay)
    with (DayFromYear n * msPerDay + (trunc_Z date - 1) * msPerDay) by ring.
  reflexivity.
Qed.

(** C9.  The epoch resolver places the epoch in the year the pivot gives
    for the two-digit token [ab] of columns 19-20 of line 1, 2000 + ab
    below 57 and 1900 + ab from 57 on: the epoch of the cron job, and the
    one of the multi-tenant job and the add-satellite route, is the instant
    that columns 21-32 give as day of the year and time of day, counted
    from 1 January of that year.  For the element set of the ISS, day
    264.51782528, token 56 gives an epoch in 2056, 57 in 1957, 99 in 1999
    and 00 in 2000. *)
Theorem epoch_resolver_year_pivot line1 a b :
  0 <= a <= 9 -> 0 <= b <= 9 ->
  slice 18 20 line1 = String (digit_char a) (String (digit_char b) EmptyString) ->
  year line1 = of_Z (10 * a + b)
  /\ fullYear line1 = of_Z (pivot_year (10 * a + b))
  /\ epochDate_ms line1 = in_year (pivot_year (10 * a + b)) (day_and_ms line1)
  /\ epochDate line1 = in_year (pivot_year (10 * a + b)) (day_and_seconds line1)
  /\ epochDate_ms (with_token "56") = Some (year_start 2056 + 22767940104)
  /\ epochDate_ms (with_token "57") = Some (year_start 1957 + 22767940104)
  /\ epochDate_ms (with_token "99") = Some (year_start 1999 + 22767940104)
  /\ epochDate_ms (with_token "00") = Some (year_start 2000 + 22767940104)
  /\ epochDate (with_token "56") = Some (year_start 2056 + 22767940000)
  /\ epochDate (with_token "57") = Some (year_start 1957 + 22767940000)
  /\ epochDate (with_token "99") = Some (year_start 1999 + 22767940000)
  /\ epochDate (with_token "00") = Some (year_start 2000 + 22767940000)
  /\ year_start 2056 = 2713910400000
  /\ year_start 1957 = -410227200000
  /\ year_start 1999 = 915148800000
  /\ year_start 2000 = 946684800000
  /\ pivot (parseInt "56") = of_Z 2056
  /\ pivot (parseInt "57") = of_Z 1957
  /\ pivot (parseInt "99") = of_Z 1999
  /\ pivot (parseInt "00") = of_Z 2000.
Proof.
  intros Ha Hb E.
  destruct (fullYear_of_token line1 a b Ha Hb E) as [Hyear Hy].
  destruct (utcYear_of_token a b Ha Hb) as [Hu Hc].
  split; [exact Hyear|]. split; [exact Hy|].
  split.
  { unfold epochDate_ms, day_and_ms. cbv zeta. rewrite Hy.
    rewrite (makeDate_in_year _ _ _ _ Hu Hc). reflexivity. }
  split.
  { unfold epochDate, day_and_seconds. cbv zeta. rewrite Hy.
    rewrite (makeDate_in_year _ _ _ _ Hu Hc).
    destruct (isFinite _); [|reflexivity].
    destruct (toInteger _); reflexivity. }
  repeat split; vm_compute; reflexivity.
Qed.

Lemma epoch_resolver_year_pivot_witness :
  (0 <= 0 <= 9) /\ (0 <= 8 <= 9)
  /\ slice 18 20 Samples.iss_line1
     = String (digit_char 0) (String (digit_char 8) EmptyString)
  /\ epochDate_ms Samples.iss_line1
     = in_year (pivot_year (10 * 0 + 8)) (day_and_ms Samples.iss_line1)
  /\ epochDate_ms Samples.iss_line1 = Some (year_start 2008 + 22767940104).
Proof.
  split; [lia|]. split; [lia|]. split; [reflexivity|].
  split; [|vm_compute; reflexivity].
  apply (proj2 (proj2 (epoch_resolver_year_pivot Samples.iss_line1 0 8
                         ltac:(lia) ltac:(lia) eq_refl))).
Defined.

End EpochFacts.

(** * The persistence step *)

Section StoreFacts.

Import Store StoreSpec.


Lemma history_conflict_key a b :
  history_conflict a b = true <-> history_key a = history_key b.
Proof.
  unfold history_conflict, history_key. split.
  - intros H. apply andb_prop in H as [H Hu]. apply andb_prop in H as [Hn He].
    apply String.eqb_eq in Hn, Hu. apply Z.eqb_eq in He. congruence.
  - intros [= -> -> ->]. now rewrite !String.eqb_refl, Z.eqb_refl.
Qed.

Lemma history_conflict_refl a : history_conflict a a = true.
Proof. now apply history_conflict_key. Qed.

Lemma history_conflict_same a b x :
  history_conflict a b = true -> history_conflict a x = history_conflict b x.
Proof.
  intros H. apply history_conflict_key in H.
  destruct (history_conflict a x) eqn:Ea, (history_conflict b x) eqn:Eb; auto.
  - apply history_conflict_key in Ea.
    assert (history_conflict b x = true) by (apply history_conflict_key; congruence).
    congruence.
  - apply history_conflict_key in Eb.
    assert (history_conflict a x = true) by (apply history_conflict_key; congruence).
    congruence.
Qed.

Lemma existsb_ext_local {A} (f g : A -> bool) l :
  (forall x, f x = g x) -> existsb f l = existsb g l.
Proof. intros H. induction l as [|a l IH]; cbn; [reflexivity | now rewrite H, IH]. Qed.

Lemma history_count_absent h t :
  existsb (history_conflict h) t = false -> history_count h t = 0%nat.
Proof.
  unfold history_count. induction t as [|r t IH]; cbn; [reflexivity|].
  intros H. apply orb_false_elim in H as [Hr Ht]. rewrite Hr. auto.
Qed.

Lemma history_count_stored h t :
  history_unique t -> existsb (history_conflict h) t = true ->
  history_count h t = 1%nat.
Proof.
  induction t as [|r t IH]; cbn [existsb history_unique]; [discriminate|].
  intros [Hr Hu] H. unfold history_count. cbn [List.filter].
  destruct (history_conflict h r) eqn:E.
  - cbn [List.length]. f_equal. apply history_count_absent.
    rewrite <- Hr. apply existsb_ext_local. intros x.
    now apply history_conflict_same.
  - cbn [orb] in H. now apply IH.
Qed.

Lemma history_unique_app t r :
  history_unique t -> existsb (history_conflict r) t = false ->
  history_unique (t ++ [r]).
Proof.
  induction t as [|a t IH]; cbn [List.app history_unique existsb].
  - auto.
  - intros [Ha Hu] H. apply orb_false_elim in H as [Hra Hrt].
    split; [|now apply IH].
    rewrite existsb_app, Ha. cbn [existsb orb].
    destruct (history_conflict a r) eqn:E; [|reflexivity].
    apply history_conflict_key in E.
    assert (history_conflict r a = true) by (apply history_conflict_key; congruence).
    congruence.
Qed.

Lemma insert_history_stored h t :
  existsb (history_conflict h) t = true -> insert_history h t = (t, 0%nat).
Proof. unfold insert_history. now intros ->. Qed.

Lemma insert_history_then_stored h t :
  existsb (history_conflict h) (fst (insert_history h t)) = true.
Proof.
  unfold insert_history. destruct (existsb (history_conflict h) t) eqn:E; cbn [fst].
  - exact E.
  - rewrite existsb_app. cbn [existsb]. now rewrite history_conflict_refl, orb_true_r.
Qed.

Lemma insert_history_unique h t :
  history_unique t -> history_unique (fst (insert_history h t)).
Proof.
  unfold insert_history. intros Hu.
  destruct (existsb (history_conflict h) t) eqn:E; cbn [fst]; auto.
  now apply history_unique_app.
Qed.

Lemma derived_conflict_refl norad name epoch derived userId :
  derived_conflict (derived_row norad name epoch derived userId)
    (derived_row norad name epoch derived userId) = true.
Proof.
  unfold derived_conflict, derived_row. cbn.
  now rewrite !String.eqb_refl, Z.eqb_refl.
Qed.

Lemma insert_derived_then_stored norad name epoch derived userId t :
  let r := derived_row norad name epoch derived userId in
  insert_derived r (fst (insert_derived r t)) = (fst (insert_derived r t), 0%nat).
Proof.
  intros r. unfold insert_derived at 2 3.
  destruct (existsb (derived_conflict r) t) eqn:E; cbn [fst].
  - unfold insert_derived. now rewrite E.
  - unfold insert_derived. rewrite existsb_app. cbn [existsb]. subst r.
    now rewrite derived_conflict_refl, orb_true_r.
Qed.

(** Running the persistence step of a sync pass twice is running it
    once. *)
Lemma persist_idempotent norad name line1 line2 epoch userId derived db :
  persist norad name line1 line2 epoch userId derived
    (persist norad name line1 line2 epoch userId derived db)
  = persist norad name line1 line2 epoch userId derived db.
Proof.
  unfold persist. cbn [satellites tle_history tle_derived].
  rewrite insert_history_stored by apply insert_history_then_stored.
  rewrite insert_derived_then_stored. reflexivity.
Qed.

Lemma backfill_conflict_refl r : backfill_conflict r r = true.
Proof. unfold backfill_conflict. now rewrite String.eqb_refl, Z.eqb_refl. Qed.


Lemma overwrite_conflict r x :
  backfill_conflict r (overwrite r x) = backfill_conflict r x.
Proof.
  unfold overwrite. destruct (backfill_conflict r x) eqn:E; [|exact E].
  exact E.
Qed.

Lemma overwrite_idempotent r x : overwrite r (overwrite r x) = overwrite r x.
Proof.
  unfold overwrite at 1. rewrite overwrite_conflict.
  unfold overwrite. destruct (backfill_conflict r x); reflexivity.
Qed.

Lemma overwrite_absent r t :
  existsb (backfill_conflict r) t = false -> List.map (overwrite r) t = t.
Proof.
  induction t as [|x t IH]; cbn [existsb List.map]; [reflexivity|].
  intros H. apply orb_false_elim in H as [Hx Ht].
  unfold overwrite at 1. rewrite Hx. now rewrite IH.
Qed.

(** Running the upsert of the backfill script twice is running it once. *)
Lemma upsert_derived_idempotent r t :
  fst (upsert_derived r (fst (upsert_derived r t))) = fst (upsert_derived r t).
Proof.
  unfold upsert_derived. fold (overwrite r).
  destruct (existsb (backfill_conflict r) t) eqn:E; cbn [fst].
  - assert (existsb (backfill_conflict r) (List.map (overwrite r) t) = true) as ->.
    { rewrite <- E. clear E. induction t as [|x t IH]; cbn; [reflexivity|].
      now rewrite overwrite_conflict, IH. }
    cbn [fst]. rewrite List.map_map.
    apply List.map_ext. intros x. apply overwrite_idempotent.
  - rewrite existsb_app. cbn [existsb].
    rewrite backfill_conflict_refl, orb_true_r. cbn [fst].
    rewrite List.map_app, overwrite_absent by assumption. cbn [List.map].
    unfold overwrite. rewrite backfill_conflict_refl. now destruct r.
Qed.

Lemma backfill_idempotent row derived db :
  backfill row derived (backfill row derived db) = backfill row derived db.
Proof.
  unfold backfill. cbn [satellites tle_history tle_derived].
  now rewrite upsert_derived_idempotent.
Qed.

(** Without a database fault an insert returns normally, whether or not
    the key is already stored. *)
Lemma insert_returns w q st :
  (forall norad, q <> Job.InsertInvalidDate norad) ->
  Job.db_fault w (Job.count Job.is_ran (Job.trace st)) q = false ->
  fst (Job.insert w q st) = Job.Returned tt
  /\ Job.db (snd (Job.insert w q st)) = Job.apply_insert q (Job.db st).
Proof.
  intros Hq Hf. unfold Job.insert. cbn.
  destruct q; try (rewrite Hf; cbn; auto).
  now destruct (Hq norad).
Qed.

(** C5.  Inserting a history record under a (norad id, epoch, user id)
    key that is already stored changes nothing, inserts no row and leaves
    exactly one row under that key; running the persistence step of a sync
    pass, or of the backfill script, twice on the same input gives the same
    store as running it once; and the insert statement returns normally on
    a duplicate key. *)
Theorem duplicate_history_insert_is_noop :
  (forall h t,
     history_unique t -> existsb (history_conflict h) t = true ->
     insert_history h t = (t, 0%nat) /\ history_count h t = 1%nat)
  /\ (forall h t,
        history_unique t ->
        history_count h (fst (insert_history h t)) = 1%nat
        /\ history_unique (fst (insert_history h t)))
  /\ (forall norad name line1 line2 epoch userId derived db,
        persist norad name line1 line2 epoch userId derived
          (persist norad name line1 line2 epoch userId derived db)
        = persist norad name line1 line2 epoch userId derived db)
  /\ (forall row derived db,
        backfill row derived (backfill row derived db) = backfill row derived db)
  /\ (forall w h st,
        existsb (history_conflict h) (tle_history (Job.db st)) = true ->
        Job.db_fault w (Job.count Job.is_ran (Job.trace st)) (Job.InsertHistory h)
        = false ->
        fst (Job.insert w (Job.InsertHistory h) st) = Job.Returned tt
        /\ Job.db (snd (Job.insert w (Job.InsertHistory h) st)) = Job.db st).
Proof.
  split; [|split; [|split; [|split]]].
  - intros h t Hu He. split.
    + now apply insert_history_stored.
    + now apply history_count_stored.
  - intros h t Hu. split.
    + apply history_count_stored.
      * now apply insert_history_unique.
      * apply insert_history_then_stored.
    + now apply insert_history_unique.
  - apply persist_idempotent.
  - apply backfill_idempotent.
  - intros w h st He Hf.
    destruct (insert_returns w (Job.InsertHistory h) st) as [Hr Hd];
      [discriminate | assumption |].
    split; [assumption|]. rewrite Hd. cbn [Job.apply_insert].
    rewrite insert_history_stored by assumption. now destruct (Job.db st).
Qed.

Lemma duplicate_history_insert_is_noop_witness :
  history_unique [Samples.iss_stored]
  /\ existsb (history_conflict Samples.iss_again) [Samples.iss_stored] = true
  /\ insert_history Samples.iss_again [Samples.iss_stored]
     = ([Samples.iss_stored], 0%nat)
  /\ history_count Samples.iss_again [Samples.iss_stored] = 1%nat.
Proof.
  split; [cbn; auto|]. split; [reflexivity|].
  apply (proj1 duplicate_history_insert_is_noop); [cbn; auto | reflexivity].
Defined.

End StoreFacts.

(** * The rate-limit cooldown of the web server *)


Section SessionFacts.

Import Session SessionSpec.


Lemma ensureSession_fresh up s n :
  fresh s n -> ensureSession up s n = (true, s, n).
Proof.
  intros [Hc Hage]. unfold ensureSession. rewrite Hc. cbn [negb orb].
  destruct (Z.ltb_spec (20 * 60 * 1000) (clock n - lastLogin s)); [lia|].
  reflexivity.
Qed.

(** C8, as stated, fails: the second fetch records a cooldown until
    1230 s, and the third fetch, at 1200.001 s, finds the session older than
    twenty minutes, sends a login request and then the request itself; the
    login has cleared the cooldown. *)
Lemma requests_sent_during_cooldown :
  rateLimitUntil (snd (fst SessionSamples.after_second)) = 1230000
  /\ clock (SessionSamples.at_time 1200001 (snd SessionSamples.after_second))
     < rateLimitUntil (snd (fst SessionSamples.after_second))
  /\ List.skipn 3 (sent (snd SessionSamples.after_third))
     = [(1200001, Login); (1200001, Get "25544")].
Proof. repeat split. Qed.

(** What [ensureSession] adds to the log: nothing, or one login. *)
Lemma ensureSession_sent up s n :
  forall ok s1 n1, ensureSession up s n = (ok, s1, n1) ->
    sent n1 = sent n \/ exists t, sent n1 = sent n ++ [(t, Login)].
Proof.
  intros ok s1 n1. unfold ensureSession, loginToSpaceTrack.
  destruct (negb (has_cookies s) || _); [|intros [= <- <- <-]; now left].
  destruct (credentials up); cbn [negb]; [|intros [= <- <- <-]; now left].
  destruct (login_reply up _); intros [= <- <- <-]; right; eexists; reflexivity.
Qed.

(** C8, amended.  Whenever the request of a fetch is answered "429", the
    fetch fails and records a cooldown timestamp 60 seconds after the
    reply, whether or not it had to log in first.  With a session that
    exists and is at most twenty minutes old: while the recorded timestamp
    lies in the future a fetch fails at once, sends nothing and changes
    nothing; once it has passed the request is sent, and a reply that
    carries a record makes the fetch succeed. *)
Theorem cooldown_recorded_and_honoured up noradId s n :
  (forall result s' n' stamped t,
     fetchFullSatelliteData up noradId s n = (result, s', n') ->
     sent n' = sent n ++ stamped ++ [(t, Get noradId)] ->
     get_reply up (List.length (sent n ++ stamped)) noradId = GetFailed (Some 429) ->
     result = None /\ rateLimitUntil s' = clock n' + 60 * 1000)
  /\ (fresh s n ->
      (clock n < rateLimitUntil s ->
       fetchFullSatelliteData up noradId s n = (None, s, n))
      /\ (rateLimitUntil s <= clock n ->
          let '(result, s', n') := fetchFullSatelliteData up noradId s n in
          sent n' = sent n ++ [(clock n, Get noradId)]
          /\ (forall sat rest,
                get_reply up (List.length (sent n)) noradId
                = GetOk (Some (sat :: rest)) ->
                result <> None /\ s' = s))).
Proof.
  split.
  - intros result s' n' stamped t. unfold fetchFullSatelliteData.
    destruct (ensureSession up s n) as [[ok s1] n1] eqn:E.
    assert (sent n1 = sent n ++ stamped ++ [(t, Get noradId)] -> False) as Hno.
    { intros H.
      destruct (ensureSession_sent up s n ok s1 n1 E) as [H1|[t1 H1]];
        rewrite H1 in H.
      - rewrite <- (List.app_nil_r (sent n)) in H at 1.
        apply List.app_inv_head in H. now destruct stamped.
      - apply List.app_inv_head in H.
        destruct stamped as [|x [|y stamped]]; cbn in H; discriminate H. }
    destruct ok; cbn [negb].
    + destruct (clock n1 <? rateLimitUntil s1).
      * intros [= <- <- <-] H _. exfalso. exact (Hno H).
      * assert (sent n1 = sent n ++ stamped ->
                get_reply up (List.length (sent n ++ stamped)) noradId
                = GetFailed (Some 429) ->
                get_reply up (List.length (sent n1)) noradId
                = GetFailed (Some 429)) as Hsame by (now intros ->).
        intros Hf H Hr.
        assert (sent n1 = sent n ++ stamped) as Hs.
        { assert (sent (send up (Get noradId) n1)
                  = sent n ++ stamped ++ [(t, Get noradId)]) as H2.
          { destruct (get_reply up (List.length (sent n1)) noradId)
              as [[[|sat rest]|]|status]; injection Hf as _ _ <-; exact H. }
          cbn [send sent] in H2. rewrite List.app_assoc in H2.
          now apply List.app_inj_tail in H2 as [H2 _]. }
        rewrite (Hsame Hs Hr) in Hf. injection Hf as <- <- <-.
        split; reflexivity.
    + intros [= <- <- <-] H _. exfalso. exact (Hno H).
  - intros Hfresh. unfold fetchFullSatelliteData.
    rewrite (ensureSession_fresh up s n Hfresh). cbn [negb].
    split.
    + intros Hcool.
      destruct (Z.ltb_spec (clock n) (rateLimitUntil s)); [reflexivity|lia].
    + intros Hover. destruct (Z.ltb_spec (clock n) (rateLimitUntil s)); [lia|].
      destruct (get_reply up (List.length (sent n)) noradId)
        as [[[|sat rest]|]|status];
        cbn [send sent clock]; (split; [reflexivity|]);
        try (intros ? ? [=]).
      split; [discriminate | reflexivity].
Qed.

Lemma cooldown_recorded_and_honoured_witness :
  (SessionSamples.after_first
   = (None,
      {| cookies := Some ["chocolatechip=1"]; lastLogin := 0;
         rateLimitUntil := 60000 |},
      {| clock := 0; sent := [(0, Login); (0, Get "25544")] |})
   /\ rateLimitUntil (snd (fst SessionSamples.after_first))
      = clock (snd SessionSamples.after_first) + 60 * 1000)
  /\ fresh (snd (fst SessionSamples.after_second))
       (SessionSamples.at_time 1200000 (snd SessionSamples.after_second))
  /\ fetchFullSatelliteData SessionSamples.throttling "25544"
       (snd (fst SessionSamples.after_second))
       (SessionSamples.at_time 1200000 (snd SessionSamples.after_second))
     = (None, snd (fst SessionSamples.after_second),
        SessionSamples.at_time 1200000 (snd SessionSamples.after_second)).
Proof.
  split.
  - split; [reflexivity|].
    apply (proj1 (cooldown_recorded_and_honoured SessionSamples.throttling "25544"
                    SessionSamples.start {| clock := 0; sent := [] |})
             None _ _ [(0, Login)] 0); reflexivity.
  - assert (fresh (snd (fst SessionSamples.after_second))
              (SessionSamples.at_time 1200000 (snd SessionSamples.after_second)))
      as Hfresh by (split; [reflexivity | vm_compute; discriminate]).
    split; [exact Hfresh|].
    apply (proj1 (proj2 (cooldown_recorded_and_honoured
                           SessionSamples.throttling "25544" _ _) Hfresh)).
    vm_compute. reflexivity.
Defined.

End SessionFacts.

(** * The sync jobs *)


Section JobFacts.

Import Job Store JobSamples JobSpec.

(** ** The loop of the cron job isolates every object *)


Lemma quiet_ret {A} (a : A) : quiet (ret a).
Proof. intros st. split; [reflexivity|]. exists []. now rewrite List.app_nil_r. Qed.

Lemma quiet_emit e : is_get e = false -> quiet (emit e).
Proof.
  intros He st. split; [reflexivity|]. exists [e]. cbn. now rewrite He.
Qed.

Lemma quiet_bind {A B} (m : M A) (k : A -> M B) :
  quiet m -> (forall a, quiet (k a)) -> quiet (bind m k).
Proof.
  intros Hm Hk st. unfold bind. specialize (Hm st).
  destruct (m st) as [[a|e] st1]; cbn [snd] in *; [|exact Hm].
  destruct Hm as (Hc & evs & Ht & Hq).
  destruct (Hk a st1) as (Hc' & evs' & Ht' & Hq').
  split; [congruence|]. exists (evs ++ evs').
  rewrite Ht', Ht, List.app_assoc, List.filter_app, Hq, Hq'. auto.
Qed.

Lemma quiet_try_catch {A} (body : M A) (handler : string -> M A) :
  quiet body -> (forall e, quiet (handler e)) -> quiet (try_catch body handler).
Proof.
  intros Hm Hk st. unfold try_catch. specialize (Hm st).
  destruct (body st) as [[a|e] st1]; cbn [snd] in *; [exact Hm|].
  destruct Hm as (Hc & evs & Ht & Hq).
  destruct (Hk e st1) as (Hc' & evs' & Ht' & Hq').
  split; [congruence|]. exists (evs ++ evs').
  rewrite Ht', Ht, List.app_assoc, List.filter_app, Hq, Hq'. auto.
Qed.

Lemma quiet_console l m : quiet (console l m).
Proof. now apply quiet_emit. Qed.

Lemma quiet_sleep ms : quiet (sleep ms).
Proof. now apply quiet_emit. Qed.

Lemma quiet_insert w q : quiet (insert w q).
Proof.
  intros st. unfold insert. cbn [emit].
  destruct q; try destruct (db_fault w _ _); cbn [snd cookies trace];
    (split; [reflexivity|]); eexists; (split; [reflexivity|]); reflexivity.
Qed.

Lemma quiet_store w norad name line1 line2 epochDate userId derived :
  quiet (store w norad name line1 line2 epochDate userId derived).
Proof.
  unfold store. destruct epochDate; [|apply quiet_insert].
  apply quiet_bind; [apply quiet_insert|]. intros _. apply quiet_insert.
Qed.

(** The [try] block of an iteration sends exactly one request, the one
    for its own object, whatever comes back. *)
Lemma fetch_one_requests_object w norad userId st :
  cookies st <> None ->
  cookies (snd (Cron.fetch_one w norad userId st)) = cookies st
  /\ exists evs,
       trace (snd (Cron.fetch_one w norad userId st))
       = trace st ++ Sent (GetTLE norad) :: evs
       /\ List.filter is_get evs = [].
Proof.
  intros Hc.
  destruct (cookies st) as [c|] eqn:Ec; [clear Hc|congruence].
  remember (Cron.fetch_one w norad userId st) as r eqn:Er.
  unfold Cron.fetch_one, bind at 1, http_get in Er. cbv zeta in Er.
  rewrite Ec in Er. cbn [emit] in Er. rewrite Ec in Er.
  set (st1 := {| cookies := Some c; db := db st;
                 trace := trace st ++ [Sent (GetTLE norad)] |}) in Er.
  destruct (get_reply w _ norad) as [body|].
  - match type of Er with
    | r = ?k st1 => assert (quiet k) as Hk
    end.
    { destruct (negb _ || _).
      - apply quiet_bind; [apply quiet_console | intros _; apply quiet_ret].
      - destruct (List.length _ <? 3)%nat.
        + apply quiet_bind; [apply quiet_console | intros _; apply quiet_ret].
        + destruct (Derive.populateDerived _ _).
          * apply quiet_bind; [apply quiet_store | intros _; apply quiet_ret].
          * apply quiet_bind; [apply quiet_console | intros _; apply quiet_ret]. }
    destruct (Hk st1) as (Hc' & evs & Ht & Hq). rewrite <- Er in Hc', Ht.
    split; [exact Hc'|].
    exists evs. rewrite Ht. subst st1. cbn [trace].
    now rewrite <- List.app_assoc.
  - subst r. cbn [snd]. split; [reflexivity|].
    exists []. split; reflexivity.
Qed.


(** X15.  Whatever the upstream service and the database do, the loop of
    the cron job runs to its end and requests every object of the list, in
    order: no failure on one object keeps the job from the next one. *)
Lemma cron_loop_visits_every_row w rows :
  forall storedCount st,
    cookies st <> None ->
    exists n st',
      Cron.for_rows w rows storedCount st = (Returned n, st')
      /\ cookies st' = cookies st
      /\ List.filter is_get (trace st')
         = List.filter is_get (trace st) ++ requests_of rows.
Proof.
  induction rows as [|[norad userId] rest IH]; intros storedCount st Hc.
  - exists storedCount, st. cbn. now rewrite List.app_nil_r.
  - cbn [Cron.for_rows]. unfold bind at 1, try_catch, bind at 1.
    destruct (fetch_one_requests_object w norad userId st Hc)
      as (Hc1 & evs & Ht1 & Hq1).
    destruct (Cron.fetch_one w norad userId st) as [[c|err] st1];
      cbn [snd] in Hc1, Ht1.
    + cbn [ret].
      assert (List.filter is_get (trace st1)
              = List.filter is_get (trace st) ++ [Sent (GetTLE norad)]) as Hg.
      { rewrite Ht1, List.filter_app. cbn. now rewrite Hq1. }
      destruct c.
      * destruct (IH storedCount st1) as (n & st' & E & Hc' & Ht'); [congruence|].
        exists n, st'. rewrite E. split; [reflexivity|]. split; [congruence|].
        rewrite Ht', Hg, <- List.app_assoc. reflexivity.
      * unfold bind, sleep, emit.
        match goal with
        | |- context [Cron.for_rows w rest ?k ?s] =>
            destruct (IH k s) as (n & st' & E & Hc' & Ht'); [cbn; congruence|]
        end.
        exists n, st'. rewrite E. split; [reflexivity|].
        split; [cbn in Hc'; congruence|].
        rewrite Ht'. cbn [trace]. rewrite List.filter_app, Hg. cbn.
        rewrite List.app_nil_r, <- List.app_assoc. reflexivity.
    + unfold bind, console, sleep, emit, ret.
      match goal with
      | |- context [Cron.for_rows w rest ?k ?s] =>
          destruct (IH k s) as (n & st' & E & Hc' & Ht'); [cbn; congruence|]
      end.
      exists n, st'. rewrite E. split; [reflexivity|].
      split; [cbn in Hc'; congruence|].
      rewrite Ht'. cbn [trace]. rewrite !List.filter_app, Ht1, List.filter_app.
      cbn. rewrite Hq1, !List.app_nil_r, <- List.app_assoc. reflexivity.
Qed.

(** ** The loop of the multi-tenant job stops at the first failure *)

(** Whatever the world, a block whose statements throw ends the loop: the
    lines after it are not looked at. *)
Lemma bulk_loop_stops_at_first_failure w userMap first rest storedCount st err st' :
  Final.process_block w userMap (Final.next_block first rest) st = (Thrown err, st') ->
  Final.while_blocks w userMap (first :: rest) storedCount st = (Thrown err, st').
Proof.
  intros H. simp while_blocks. unfold bind. now rewrite H.
Qed.

(** In the cron job a failure of the second insert is caught like any
    other, after the history row of the object has been written. *)
Lemma cron_job_keeps_history_row_on_late_failure :
  let cron := snd (Cron.fetchAndStoreTLEs half_write_world start) in
  stored_ids (db cron) = ["25544"; "20580"]
  /\ derived_ids (db cron) = ["20580"].
Proof. vm_compute. split; reflexivity. Qed.

(** ** The job-level retry *)


(** A pass that throws is run again as long as [retryCount] is 0, 1 or 2,
    whatever the world. *)
Lemma failed_pass_is_retried w retryCount st st1 err st2 :
  (retryCount < 3)%nat ->
  Final.no_session w st = (Returned false, st1) ->
  Final.pass w st1 = (Thrown err, st2) ->
  Final.fetchAndStoreTLEs w retryCount st
  = Final.fetchAndStoreTLEs w (S retryCount) (before_retry retryCount err st2).
Proof.
  intros Hlt Hs Hp.
  remember (Final.fetchAndStoreTLEs w (S retryCount) _) as again eqn:E.
  simp fetchAndStoreTLEs. rewrite Hs. cbn.
  rewrite Hp. cbn. destruct (lt_dec retryCount 3); [exact (eq_sym E) | contradiction].
Qed.

(** The job gives up only when the pass throws with [retryCount] at 3,
    that is on its fourth run. *)
Lemma failed_pass_gives_up w retryCount st st1 err st2 :
  (3 <= retryCount)%nat ->
  Final.no_session w st = (Returned false, st1) ->
  Final.pass w st1 = (Thrown err, st2) ->
  Final.fetchAndStoreTLEs w retryCount st = on_give_up retryCount err st2.
Proof.
  intros Hge Hs Hp. simp fetchAndStoreTLEs. rewrite Hs. cbn.
  rewrite Hp. cbn. destruct (lt_dec retryCount 3); [lia | reflexivity].
Qed.

(** C6.  The bound of the job-level retry is not three attempts: when
    every pass fails on its request, the job that starts without a session
    logs in and runs the pass four times, sleeping 30 seconds three times,
    reports the failure of attempt 4 and only then gives up.  Started with
    the session of an earlier run it logs in three times, and still runs
    the pass four times. *)
Theorem retry_makes_four_attempts :
  let final := Final.fetchAndStoreTLEs unreachable 0 start in
  let later := Final.fetchAndStoreTLEs unreachable 0 start_with_session in
  count is_login (trace final) = 4%nat
  /\ count is_get (trace final) = 4%nat
  /\ count is_retry_sleep (trace final) = 3%nat
  /\ count is_fourth_failure (trace final) = 1%nat
  /\ List.last (trace final) (Exited 1) = Logged Error GivingUp
  /\ count is_login (trace later) = 3%nat
  /\ count is_get (trace later) = 4%nat
  /\ count is_fourth_failure (trace later) = 1%nat.
Proof. vm_compute. repeat split. Qed.

(** C7.  In the multi-tenant job a failure on one object aborts the
    batch: when the database rejects the history row of the first element
    set of the reply, no statement is ever issued for the second one, in
    none of the four attempts, and nothing is stored.  The cron job, whose
    loop body is wrapped in [try]/[catch], logs the failure and stores the
    second object. *)
Theorem bulk_job_aborts_on_one_failure :
  let final := Final.fetchAndStoreTLEs bulk_world 0 start in
  let cron := snd (Cron.fetchAndStoreTLEs per_object_world start) in
  nonblank_lines (trim bulk_reply)
  = [Samples.iss_line1; Samples.iss_line2; Samples.hst_line1; Samples.hst_line2]
  /\ count (writes "25544") (trace final) = 4%nat
  /\ count (writes "20580") (trace final) = 0%nat
  /\ stored_ids (db final) = []
  /\ count is_get (trace final) = 4%nat
  /\ stored_ids (db cron) = ["20580"]
  /\ count (writes "20580") (trace cron) = 2%nat
  /\ List.In (Logged Warn (FailedFor "25544" "Query failed")) (trace cron).
Proof.
  vm_compute. repeat split. auto 20.
Qed.

End JobFacts.

(** * Properties of the remaining functions *)

(** ** The columns the derivations read *)

Section ColumnFacts.

Import Derive.

Lemma substring_of_prefix s :
  forall a n m, (a + n <= m)%nat ->
    String.substring a n (String.substring 0 m s) = String.substring a n s.
Proof.
  induction s as [|c s IH]; intros a n m H.
  - destruct m; reflexivity.
  - destruct m as [|m].
    + assert (a = 0%nat) by lia. assert (n = 0%nat) by lia. subst. reflexivity.
    + cbn [String.substring]. destruct a as [|a].
      * destruct n as [|n]; [reflexivity|].
        cbn [String.substring]. f_equal. apply IH. lia.
      * cbn [String.substring]. apply IH. lia.
Qed.

Lemma slice_of_prefix a b s :
  (a <= b)%nat -> (b <= 63)%nat -> slice a b (slice 0 63 s) = slice a b s.
Proof.
  intros Hab Hb. unfold slice. apply substring_of_prefix. lia.
Qed.

Lemma present_prefix line :
  present (option_map (slice 0 63) line) = present line.
Proof. destruct line as [[|c s]|]; reflexivity. Qed.

Lemma text_prefix line :
  text (option_map (slice 0 63) line) = slice 0 63 (text line).
Proof. destruct line; reflexivity. Qed.

Lemma meanMotion_prefix s : Raw.meanMotion (slice 0 63 s) = Raw.meanMotion s.
Proof. unfold Raw.meanMotion. rewrite slice_of_prefix by lia. reflexivity. Qed.

Lemma derived_prefix line1 line2 meanMotion :
  derived (slice 0 63 line1) (slice 0 63 line2) meanMotion
  = derived line1 line2 meanMotion.
Proof.
  unfold derived, Raw.perigee, Raw.apogee, Raw.inclination, Raw.eccentricity,
    Raw.raan, Raw.argPerigee, Raw.meanAnomaly, Raw.bstar, Raw.mean_motion_dot,
    Raw.mean_motion_ddot.
  rewrite !slice_of_prefix by lia. reflexivity.
Qed.

(** X1.  None of the three copies of the derivation reads past column 63
    of either line: the result is the one for the lines cut after their
    first 63 characters, so the element-set number and the checksum of a
    line never matter. *)
Theorem derivations_read_first_63_columns line1 line2 :
  populateDerived line1 line2
  = populateDerived (option_map (slice 0 63) line1) (option_map (slice 0 63) line2)
  /\ calculateDerived line1 line2
     = calculateDerived (option_map (slice 0 63) line1)
         (option_map (slice 0 63) line2)
  /\ calculateDerived_cron line1 line2
     = calculateDerived_cron (option_map (slice 0 63) line1)
         (option_map (slice 0 63) line2).
Proof.
  unfold populateDerived, calculateDerived, calculateDerived_cron.
  rewrite !present_prefix, !text_prefix, !meanMotion_prefix, !derived_prefix.
  auto.
Qed.

Lemma substring_past_end s :
  forall a n, (String.length s <= a)%nat -> String.substring a n s = EmptyString.
Proof.
  induction s as [|c s IH]; intros a n H.
  - destruct a, n; reflexivity.
  - destruct a as [|a]; cbn [String.length] in H; [lia|].
    cbn [String.substring]. apply IH. lia.
Qed.

Lemma parseFloat_empty : parseFloat EmptyString = NaN.
Proof. reflexivity. Qed.

(** X2.  A second line that ends before the mean motion columns is
    rejected by all three copies of the derivation, whatever the first
    line holds. *)
Theorem short_line2_is_rejected line1 line2 :
  (String.length line2 <= 52)%nat ->
  populateDerived line1 (Some line2) = None
  /\ calculateDerived line1 (Some line2) = None
  /\ calculateDerived_cron line1 (Some line2) = None.
Proof.
  intros H.
  assert (Raw.meanMotion line2 = NaN) as E.
  { unfold Raw.meanMotion, slice. rewrite substring_past_end by exact H.
    apply parseFloat_empty. }
  unfold populateDerived, calculateDerived, calculateDerived_cron.
  cbn [text]. rewrite E. cbn [truthy NaN negb orb].
  destruct (negb (present line1) || negb (present (Some line2))); auto.
Qed.

Lemma short_line2_is_rejected_witness :
  (String.length ColumnSamples.iss_line2_cut <= 52)%nat
  /\ populateDerived (Some Samples.iss_line1) (Some ColumnSamples.iss_line2_cut) = None.
Proof.
  split; [vm_compute; lia|].
  apply (short_line2_is_rejected (Some Samples.iss_line1) ColumnSamples.iss_line2_cut).
  vm_compute. lia.
Defined.

End ColumnFacts.

(** ** The fetch function of the web server *)

Section FetchFacts.

Import Session FetchSpec.

Lemma field_or_0_is_number f : isNaN (field_or_0 f) = false.
Proof.
  unfold field_or_0, Snapshot.or_else.
  destruct (match f with Some v => parseFloat v | None => NaN end)
    as [z|i| |sg m e]; reflexivity.
Qed.

Lemma sat_name_nonempty f : nonempty (sat_name f) = true.
Proof.
  unfold sat_name. destruct f as [v|]; [|reflexivity].
  destruct (nonempty (trim v)) eqn:E; [exact E | reflexivity].
Qed.

Lemma requests_between_refl n : requests_between n n [].
Proof. exists []. now rewrite List.app_nil_r. Qed.

Lemma requests_between_send up r n : requests_between n (send up r n) [r].
Proof. exists [(clock n, r)]. split; reflexivity. Qed.

Lemma requests_between_trans a b c l k :
  requests_between a b l -> requests_between b c k ->
  requests_between a c (l ++ k).
Proof.
  intros (x & Hx & Ex) (y & Hy & Ey). exists (x ++ y).
  rewrite Hy, Hx, <- List.app_assoc, List.map_app, Ex, Ey. auto.
Qed.

(** What [ensureSession] sends and answers. *)
Lemma ensureSession_cases up s n :
  forall ok s1 n1, ensureSession up s n = (ok, s1, n1) ->
    ok = has_cookies s1
    /\ requests_between n n1
         (if stale s n && credentials up then [Login] else []).
Proof.
  intros ok s1 n1. unfold ensureSession, stale, loginToSpaceTrack.
  destruct (negb (has_cookies s) || (20 * 60 * 1000 <? clock n - lastLogin s)).
  - cbn [andb]. destruct (credentials up); cbn [negb].
    + destruct (login_reply up _); intros [= <- <- <-];
        (split; [reflexivity | apply requests_between_send]).
    + intros [= <- <- <-]. split; [reflexivity | apply requests_between_refl].
  - cbn [andb]. intros [= <- <- <-].
    split; [reflexivity | apply requests_between_refl].
Qed.

(** What one call of the fetch function sends, and what it returns. *)
Lemma fetch_cases up noradId s n :
  forall r s' n', fetchFullSatelliteData up noradId s n = (r, s', n') ->
    exists asked : bool,
      requests_between n n'
        ((if stale s n && credentials up then [Login] else [])
         ++ (if asked then [Get noradId] else []))
      /\ (asked = true -> has_cookies s' = true)
      /\ (forall d, r = Some d -> asked = true /\ well_formed noradId d).
Proof.
  intros r s' n'. unfold fetchFullSatelliteData.
  destruct (ensureSession up s n) as [[ok s1] n1] eqn:E.
  destruct (ensureSession_cases up s n ok s1 n1 E) as [Hok Hreq].
  destruct ok; cbn [negb].
  - destruct (clock n1 <? rateLimitUntil s1).
    + intros [= <- <- <-]. exists false. rewrite List.app_nil_r.
      split; [exact Hreq|]. split; [discriminate|]. discriminate.
    + assert (requests_between n (send up (Get noradId) n1)
                ((if stale s n && credentials up then [Login] else [])
                 ++ [Get noradId])) as Hall.
      { eapply requests_between_trans; [exact Hreq|].
        apply requests_between_send. }
      destruct (get_reply up _ noradId) as [[[|sat rest]|]|status].
      * intros [= <- <- <-]. exists true.
        split; [exact Hall|]. split; [auto|]. discriminate.
      * intros [= <- <- <-]. exists true.
        split; [exact Hall|]. split; [auto|].
        intros d [= <-]. split; [reflexivity|].
        unfold well_formed, numeric_fields. cbn [Snapshot.norad_id Snapshot.name
          Snapshot.inclination Snapshot.mean_motion Snapshot.eccentricity
          Snapshot.semi_major_axis Snapshot.perigee Snapshot.apogee
          Snapshot.period List.forallb].
        rewrite !field_or_0_is_number, sat_name_nonempty. auto.
      * intros [= <- <- <-]. exists true.
        split; [exact Hall|]. split; [auto|]. discriminate.
      * intros [= <- <- <-]. exists true.
        split; [exact Hall|]. split; [|discriminate].
        intros _. destruct status as [[|[]|]|]; try exact (eq_sym Hok).
        all: try (unfold has_cookies; cbn [cookies]; exact (eq_sym Hok)).
        all: repeat match goal with
             | |- context [match ?p with _ => _ end] => destruct p
             end; try exact (eq_sym Hok);
             unfold has_cookies; cbn [cookies]; exact (eq_sym Hok).
  - intros [= <- <- <-]. exists false. rewrite List.app_nil_r.
    split; [exact Hreq|]. split; [discriminate|]. discriminate.
Qed.

(** X3.  Every object the fetch function returns is the one for the
    identifier it was called with, carries a non-empty name, and has no
    NaN in any of its seven numeric fields, whatever the upstream record
    holds; and it is returned only after a request for that identifier was
    sent with a session. *)
Theorem fetched_object_is_well_formed up noradId s n d s' n' :
  fetchFullSatelliteData up noradId s n = (Some d, s', n') ->
  well_formed noradId d
  /\ has_cookies s' = true
  /\ exists stamped t,
       sent n' = sent n ++ stamped /\ List.last stamped (t, Login) = (t, Get noradId).
Proof.
  intros H. destruct (fetch_cases up noradId s n _ _ _ H) as (asked & Hreq & Hc & Hd).
  destruct (Hd d eq_refl) as [-> Hw]. split; [exact Hw|]. split; [auto|].
  destruct Hreq as (stamped & Hs & Hm). exists stamped.
  destruct (stale s n && credentials up).
  - destruct stamped as [|[t1 r1] [|[t2 r2] [|x y]]]; try discriminate Hm.
    cbn in Hm. injection Hm as _ ->. exists t2. auto.
  - destruct stamped as [|[t1 r1] [|x y]]; try discriminate Hm.
    cbn in Hm. injection Hm as ->. exists t1. auto.
Qed.

Lemma fetched_object_is_well_formed_witness :
  exists d s' n',
    fetchFullSatelliteData WebSamples.serving "25544" SessionSamples.start
      {| clock := 0; sent := [] |} = (Some d, s', n')
    /\ well_formed "25544" d.
Proof.
  eexists. eexists. eexists.
  split; [vm_compute; reflexivity|].
  apply (fetched_object_is_well_formed WebSamples.serving "25544" SessionSamples.start
           {| clock := 0; sent := [] |} _
           {| cookies := Some ["chocolatechip=1"]; lastLogin := 250;
              rateLimitUntil := 0 |}
           {| clock := 500; sent := [(0, Login); (250, Get "25544")] |}).
  vm_compute. reflexivity.
Defined.

(** X4.  One call of the fetch function sends at most a login followed
    by one request for the identifier it was given, and nothing else: the
    login exactly when the session is absent or older than twenty minutes
    and credentials are configured, and the request only with a session
    in hand. *)
Theorem fetch_sends_login_then_one_request up noradId s n :
  exists asked : bool,
    requests_between n (snd (fetchFullSatelliteData up noradId s n))
      ((if stale s n && credentials up then [Login] else [])
       ++ (if asked then [Get noradId] else []))
    /\ (asked = true
        -> has_cookies (snd (fst (fetchFullSatelliteData up noradId s n))) = true).
Proof.
  destruct (fetchFullSatelliteData up noradId s n) as [[r s'] n'] eqn:E.
  destruct (fetch_cases up noradId s n _ _ _ E) as (asked & Hreq & Hc & _).
  exists asked. auto.
Qed.

End FetchFacts.

(** ** The routes of the web server *)

Section RouteFacts.

Import Session FetchSpec SessionSpec Web.

Context {Row : Type}.

Lemma web_fetch_cases (srv : Server Row) noradId ctx r ctx' :
  fetch srv noradId ctx = (r, ctx') ->
  ran ctx' = ran ctx
  /\ fetchFullSatelliteData (upstream srv) noradId (session ctx) (net ctx)
     = (r, session ctx', net ctx').
Proof.
  unfold fetch.
  destruct (fetchFullSatelliteData _ _ _ _) as [[d s1] n1].
  intros [= <- <-]. split; reflexivity.
Qed.

(** X5.  [GET /api/satellite/:norad_id] answers 200, 404 or 500.  It
    always runs the SELECT for the caller's own row first and never more
    than one further statement: an upsert, issued only after the fetch
    function returned an object, under the requested identifier and the
    caller's user id, with a non-empty name.  A 404 writes nothing, and
    Space-Track is contacted only when the SELECT returned no row. *)
Theorem getSatellite_upserts_only_the_fetched_object
    (srv : Server Row) norad_id userId ctx :
  exists status body more,
    fst (getSatellite srv norad_id userId ctx) = Json status body
    /\ (status = 200 \/ status = 404 \/ status = 500)
    /\ ran (snd (getSatellite srv norad_id userId ctx))
       = ran ctx ++ SelectSatellite norad_id userId :: more
    /\ (more = []
        \/ exists p d,
             more = [UpsertSatellite p]
             /\ status <> 404
             /\ p = upsert_params d (Snapshot.calculateDerivedParams d) userId
             /\ well_formed norad_id d
             /\ has_cookies (session (snd (getSatellite srv norad_id userId ctx)))
                = true)
    /\ (sent (net (snd (getSatellite srv norad_id userId ctx))) <> sent (net ctx)
        -> db_reply srv (List.length (ran ctx)) (SelectSatellite norad_id userId)
           = DbRows []).
Proof.
  unfold getSatellite, query.
  destruct (db_reply srv (List.length (ran ctx)) (SelectSatellite norad_id userId))
    as [[|sat rest]|] eqn:Esel.
  - match goal with
    | |- context [fetch srv norad_id ?c] =>
        destruct (fetch srv norad_id c) as [[d|] ctx2] eqn:Ef;
        destruct (web_fetch_cases srv norad_id c _ _ Ef) as [Hran Hf]
    end; cbn [ran session net] in Hran, Hf.
    + destruct (fetch_cases _ _ _ _ _ _ _ Hf) as (asked & _ & Hc & Hd).
      destruct (Hd d eq_refl) as [-> Hw]. specialize (Hc eq_refl).
      assert (forall more status,
                more = [UpsertSatellite
                          (upsert_params d (Snapshot.calculateDerivedParams d) userId)] ->
                status <> 404 ->
                more = []
                \/ exists p d0,
                     more = [UpsertSatellite p]
                     /\ status <> 404
                     /\ p = upsert_params d0 (Snapshot.calculateDerivedParams d0) userId
                     /\ well_formed norad_id d0
                     /\ has_cookies (session ctx2) = true) as Hmore.
      { intros more status -> Hs. right. eexists. exists d. auto. }
      match goal with
      | |- context [db_reply srv ?k ?q] => destruct (db_reply srv k q) as [rows|]
      end; cbn [fst snd ran session net].
      * exists 200, (RowBody (List.hd_error rows)),
          [UpsertSatellite
             (upsert_params d (Snapshot.calculateDerivedParams d) userId)].
        split; [reflexivity|]. split; [auto|].
        split; [rewrite Hran, <- List.app_assoc; reflexivity|].
        split; [apply Hmore; [reflexivity | lia] | reflexivity].
      * exists 500, (ErrorBody "Server error"),
          [UpsertSatellite
             (upsert_params d (Snapshot.calculateDerivedParams d) userId)].
        split; [reflexivity|]. split; [auto|].
        split; [rewrite Hran, <- List.app_assoc; reflexivity|].
        split; [apply Hmore; [reflexivity | lia] | reflexivity].
    + cbn [fst snd]. exists 404, (ErrorBody "Satellite not found"), [].
      split; [reflexivity|]. split; [auto|].
      split; [rewrite Hran; reflexivity|]. split; [auto | reflexivity].
  - cbn [fst snd ran net]. exists 200, (RowBody (Some sat)), [].
    split; [reflexivity|]. split; [auto|]. split; [reflexivity|].
    split; [auto|]. intros H. now contradiction H.
  - cbn [fst snd ran net]. exists 500, (ErrorBody "Server error"), [].
    split; [reflexivity|]. split; [auto|]. split; [reflexivity|].
    split; [auto|]. intros H. now contradiction H.
Qed.

Lemma filter_nonempty_head (l : list string) x rest :
  List.filter nonempty l = x :: rest -> nonempty x = true.
Proof.
  intros H. assert (List.In x (List.filter nonempty l)) as Hin
    by (rewrite H; now left).
  apply List.filter_In in Hin. tauto.
Qed.

(** X6.  Whenever [GET /api/public/iss] answers 200, the name in the
    body is the first non-empty line of the upstream reply, the first
    element line is the second one and the second element line is the
    third one, absent when the reply has two lines: the default name is
    never used. *)
Theorem publicIss_names_the_first_line (srv : Server Row) ctx name line1 line2 ctx' :
  publicIss srv ctx = (Json 200 (IssBody name line1 line2), ctx') ->
  exists k data second rest,
    tle_reply srv k = Some data
    /\ reply_lines data = name :: second :: rest
    /\ nonempty name = true
    /\ line1 = Some second
    /\ line2 = List.hd_error rest.
Proof.
  unfold publicIss.
  destruct (ensureSession (upstream srv) (session ctx) (net ctx)) as [[ok s1] n1].
  destruct ok; cbn [negb]; [|discriminate].
  destruct (tle_reply srv (List.length (sent n1))) as [data|] eqn:Er; [|discriminate].
  unfold reply_lines.
  destruct (List.filter nonempty (split Job.LF (trim data)))
    as [|first [|second rest]] eqn:El; cbn [List.length Nat.ltb Nat.leb];
    try discriminate.
  cbn [Job.at_index List.nth_error Derive.text].
  rewrite (filter_nonempty_head _ _ _ El).
  intros [= <- <- <- <-].
  exists (List.length (sent n1)), data, second, rest.
  split; [exact Er|]. split; [exact El|].
  split; [exact (filter_nonempty_head _ _ _ El)|].
  split; [reflexivity|]. destruct rest; reflexivity.
Qed.

(** X7.  [GET /api/public/iss] does not look at the cooldown: with a
    session at most twenty minutes old it sends its request at once,
    whatever [rateLimitUntil] holds, and leaves the session as it was. *)
Theorem publicIss_sends_during_cooldown (srv : Server Row) ctx :
  fresh (session ctx) (net ctx) ->
  session (snd (publicIss srv ctx)) = session ctx
  /\ sent (net (snd (publicIss srv ctx)))
     = sent (net ctx) ++ [(clock (net ctx), Get "25544")].
Proof.
  intros H. unfold publicIss. rewrite (ensureSession_fresh _ _ _ H). cbn [negb].
  destruct (tle_reply srv _) as [data|]; [|split; reflexivity].
  destruct (_ <? _)%nat; split; reflexivity.
Qed.

End RouteFacts.

Lemma publicIss_names_the_first_line_witness :
  exists line1 ctx',
    Web.publicIss WebSamples.server WebSamples.idle
    = (Web.Json 200 (Web.IssBody Samples.iss_line1 line1 None), ctx')
    /\ exists k data second rest,
         Web.tle_reply WebSamples.server k = Some data
         /\ Web.reply_lines data = Samples.iss_line1 :: second :: rest
         /\ nonempty Samples.iss_line1 = true
         /\ line1 = Some second
         /\ None = List.hd_error rest.
Proof.
  eexists. eexists. split; [vm_compute; reflexivity|].
  apply (publicIss_names_the_first_line WebSamples.server WebSamples.idle
           Samples.iss_line1 (Some Samples.iss_line2) None
           {| Web.session := WebSamples.cooling;
              Web.net := Session.send WebSamples.serving (Session.Get "25544")
                           WebSamples.at_30s;
              Web.ran := [] |}).
  vm_compute. reflexivity.
Defined.

Lemma publicIss_sends_during_cooldown_witness :
  SessionSpec.fresh (Web.session WebSamples.idle) (Web.net WebSamples.idle)
  /\ Session.clock (Web.net WebSamples.idle)
     < Session.rateLimitUntil (Web.session WebSamples.idle)
  /\ Session.sent (Web.net (snd (Web.publicIss WebSamples.server WebSamples.idle)))
     = [(0, Session.Login); (30000, Session.Get "25544")].
Proof.
  assert (SessionSpec.fresh (Web.session WebSamples.idle) (Web.net WebSamples.idle))
    as H by (split; [reflexivity | vm_compute; discriminate]).
  split; [exact H|]. split; [reflexivity|].
  exact (proj2 (publicIss_sends_during_cooldown WebSamples.server WebSamples.idle H)).
Defined.

(** ** Invariants of the sync jobs *)

Lemma final_job_skips w retryCount st st1 :
  Job.Final.no_session w st = (Job.Returned true, st1) ->
  Job.Final.fetchAndStoreTLEs w retryCount st
  = snd (Job.console Job.Log Job.SkippingNoSession st1).
Proof. intros Hs. simp fetchAndStoreTLEs. rewrite Hs. reflexivity. Qed.

Lemma final_job_stops w retryCount st e st1 :
  Job.Final.no_session w st = (Job.Thrown e, st1) ->
  Job.Final.fetchAndStoreTLEs w retryCount st = st1.
Proof. intros Hs. simp fetchAndStoreTLEs. rewrite Hs. reflexivity. Qed.

Lemma final_job_done w retryCount st st1 u st2 :
  Job.Final.no_session w st = (Job.Returned false, st1) ->
  Job.Final.pass w st1 = (Job.Returned u, st2) ->
  Job.Final.fetchAndStoreTLEs w retryCount st = st2.
Proof.
  intros Hs Hp. simp fetchAndStoreTLEs. rewrite Hs. cbn. rewrite Hp. reflexivity.
Qed.

Section Respect.

Import Job Store JobInvariant.

Variable R : State -> State -> Prop.
Hypothesis R_refl : forall st, R st st.
Hypothesis R_trans : forall a b c, R a b -> R b c -> R a c.

Lemma respects_ret {A} (a : A) : respects R (ret a).
Proof. intros st. apply R_refl. Qed.

Lemma respects_get_cookies : respects R get_cookies.
Proof. intros st. apply R_refl. Qed.

Lemma respects_bind {A B} (m : M A) (k : A -> M B) :
  respects R m -> (forall a, respects R (k a)) -> respects R (bind m k).
Proof.
  intros Hm Hk st. unfold bind. specialize (Hm st).
  destruct (m st) as [[a|e] st1]; cbn [snd] in *; [|exact Hm].
  eapply R_trans; [exact Hm | apply Hk].
Qed.

Lemma respects_try_catch {A} (body : M A) (handler : string -> M A) :
  respects R body -> (forall e, respects R (handler e)) ->
  respects R (try_catch body handler).
Proof.
  intros Hm Hk st. unfold try_catch. specialize (Hm st).
  destruct (body st) as [[a|e] st1]; cbn [snd] in *; [exact Hm|].
  eapply R_trans; [exact Hm | apply Hk].
Qed.

Hypothesis R_console : forall l m, respects R (console l m).
Hypothesis R_sleep_1000 : respects R (sleep 1000).
Hypothesis R_set_cookies : forall c, respects R (set_cookies c).
Hypothesis R_insert : forall w q, respects R (insert w q).
Hypothesis R_select : forall w, respects R (select_satellites w).

Ltac respect :=
  repeat first
    [ apply respects_ret
    | apply respects_get_cookies
    | apply R_console
    | apply R_sleep_1000
    | apply R_set_cookies
    | apply R_insert
    | apply R_select
    | match goal with H : context [respects] |- _ => apply H end
    | apply respects_bind; [|intros ?]
    | apply respects_try_catch; [|intros ?]
    | progress cbv zeta
    | match goal with
      | |- respects _ (match ?x with _ => _ end) => destruct x
      | |- respects _ (if ?x then _ else _) => destruct x
      end ].

Lemma respects_store w norad name line1 line2 epochDate userId derived :
  respects R (store w norad name line1 line2 epochDate userId derived).
Proof. unfold store. respect. Qed.

Lemma respects_process_block w userMap b :
  respects R (Final.process_block w userMap b).
Proof.
  pose proof respects_store. unfold Final.process_block. respect.
Qed.

Lemma respects_while_blocks w userMap :
  forall n lines storedCount,
    (List.length lines <= n)%nat ->
    respects R (Final.while_blocks w userMap lines storedCount).
Proof.
  induction n as [|n IH]; intros [|first rest] storedCount H;
    simp while_blocks; try apply respects_ret; cbn [List.length] in H; [lia|].
  apply respects_bind; [apply respects_process_block|].
  intros stored. apply IH. unfold Final.next_block.
  destruct (nonempty first && negb (startsWith "1 " first)); cbn [Final.b_rest];
    rewrite List.length_skipn; lia.
Qed.

Lemma respects_finally {A} (body : M A) (cleanup : M unit) :
  respects R body -> respects R cleanup -> respects R (finally body cleanup).
Proof.
  intros Hb Hc st. unfold finally. specialize (Hb st).
  destruct (body st) as [o st1]; cbn [snd] in Hb. specialize (Hc st1).
  destruct (cleanup st1) as [[u|e] st2]; cbn [snd] in *;
    eapply R_trans; eauto.
Qed.

Hypothesis R_post_login : forall w, respects R (post_login w).
Hypothesis R_http_get : forall w ids, respects R (http_get w ids).

Lemma respects_cron_login w : respects R (Cron.loginToSpaceTrack w).
Proof. unfold Cron.loginToSpaceTrack. respect. Qed.

Lemma respects_cron_fetch_one w norad userId :
  respects R (Cron.fetch_one w norad userId).
Proof.
  pose proof respects_store. unfold Cron.fetch_one. respect.
Qed.

Lemma respects_cron_for_rows w rows :
  forall storedCount, respects R (Cron.for_rows w rows storedCount).
Proof.
  pose proof respects_cron_fetch_one.
  induction rows as [|[norad userId] rest IH]; intros storedCount;
    cbn [Cron.for_rows]; respect.
Qed.

(** The [try]/[catch] statement of the cron job, without its [finally]. *)
Lemma respects_cron_body w :
  respects R
    (try_catch
       (bind (select_satellites w)
          (fun rows =>
             match rows with
             | [] => console Log NoSatellites
             | _ =>
                 bind (console Log (Fetching (List.length rows)))
                   (fun _ =>
                      bind (Cron.for_rows w rows 0)
                        (fun storedCount => console Log (JobComplete storedCount)))
             end))
       (fun err => console Error (JobFailed err))).
Proof.
  pose proof respects_cron_for_rows. respect.
Qed.

Lemma respects_tle_login w : respects R (JobTle.login w).
Proof. unfold JobTle.login. respect. Qed.

Lemma respects_tle_fetch_one w norad userId :
  respects R (JobTle.fetch_one w norad userId).
Proof.
  pose proof respects_store. unfold JobTle.fetch_one. respect.
Qed.

Lemma respects_tle_for_rows w rows :
  forall storedCount, respects R (JobTle.for_rows w rows storedCount).
Proof.
  pose proof respects_tle_fetch_one.
  induction rows as [|[norad userId] rest IH]; intros storedCount;
    cbn [JobTle.for_rows]; respect.
Qed.

Lemma respects_tle_job w : respects R (JobTle.fetchAndStoreTLEs w).
Proof.
  pose proof respects_tle_for_rows. pose proof respects_tle_login.
  unfold JobTle.fetchAndStoreTLEs. respect.
Qed.

Lemma respects_final_login w : respects R (Final.login w).
Proof. unfold Final.login. respect. Qed.

Lemma respects_no_session w : respects R (Final.no_session w).
Proof.
  pose proof respects_final_login. unfold Final.no_session. respect.
Qed.

Lemma respects_pass w : respects R (Final.pass w).
Proof.
  pose proof respects_while_blocks. unfold Final.pass. respect.
  eapply H. reflexivity.
Qed.

Hypothesis R_sleep_30000 : respects R (sleep 30000).

Lemma respects_before_retry retryCount err st :
  R st (JobSpec.before_retry retryCount err st).
Proof.
  unfold JobSpec.before_retry.
  match goal with |- R st (snd (?m st)) => assert (respects R m) as H end.
  { respect. }
  apply H.
Qed.

Lemma respects_on_give_up retryCount err st :
  R st (JobSpec.on_give_up retryCount err st).
Proof.
  unfold JobSpec.on_give_up.
  match goal with |- R st (snd (?m st)) => assert (respects R m) as H end.
  { respect. }
  apply H.
Qed.

Lemma respects_final_job w :
  forall k retryCount st,
    (3 - retryCount <= k)%nat -> R st (Final.fetchAndStoreTLEs w retryCount st).
Proof.
  induction k as [|k IH]; intros retryCount st Hk;
    pose proof (respects_no_session w st) as Hs;
    destruct (Final.no_session w st) as [[[|]|e] st1] eqn:Es; cbn [snd] in Hs.
  all: try (rewrite (final_job_skips w retryCount st st1 Es);
            eapply R_trans; [exact Hs | apply R_console]).
  all: try (rewrite (final_job_stops w retryCount st e st1 Es); exact Hs).
  all: pose proof (respects_pass w st1) as Hp;
    destruct (Final.pass w st1) as [[u|err] st2] eqn:Ep; cbn [snd] in Hp.
  all: try (rewrite (final_job_done w retryCount st st1 u st2 Es Ep);
            eapply R_trans; eassumption).
  - rewrite (failed_pass_gives_up w retryCount st st1 err st2 ltac:(lia) Es Ep).
    eapply R_trans; [exact Hs|]. eapply R_trans; [exact Hp|].
    apply respects_on_give_up.
  - destruct (lt_dec retryCount 3) as [Hlt|Hge].
    + rewrite (failed_pass_is_retried w retryCount st st1 err st2 Hlt Es Ep).
      eapply R_trans; [exact Hs|]. eapply R_trans; [exact Hp|].
      eapply R_trans; [apply respects_before_retry|]. apply IH. lia.
    + rewrite (failed_pass_gives_up w retryCount st st1 err st2 ltac:(lia) Es Ep).
      eapply R_trans; [exact Hs|]. eapply R_trans; [exact Hp|].
      apply respects_on_give_up.
Qed.

Hypothesis R_pool_end : respects R (emit PoolEnded).
Hypothesis R_exit_0 : respects R (emit (Exited 0)).

Lemma respects_cron_job w : respects R (Cron.fetchAndStoreTLEs w).
Proof.
  pose proof respects_cron_login. pose proof respects_cron_body.
  unfold Cron.fetchAndStoreTLEs. respect.
  apply respects_finally; respect.
Qed.

End Respect.

Section JobInvariants.

Import Job Store JobSamples JobSpec JobInvariant.

Lemma appends_refl st : appends st st.
Proof.
  split; [reflexivity|]. split; [exists []; now rewrite List.app_nil_r|].
  split; [exists []; now rewrite List.app_nil_r | auto].
Qed.

Lemma appends_trans a b c : appends a b -> appends b c -> appends a c.
Proof.
  intros (Hs & (h & Hh) & (d & Hd) & Hu) (Hs' & (h' & Hh') & (d' & Hd') & Hu').
  split; [congruence|].
  split; [exists (h ++ h'); now rewrite Hh', Hh, List.app_assoc|].
  split; [exists (d ++ d'); now rewrite Hd', Hd, List.app_assoc | auto].
Qed.

(** A step that leaves the database alone. *)
Lemma appends_same_db st st' : db st' = db st -> appends st st'.
Proof. intros E. unfold appends. rewrite E. apply appends_refl. Qed.

Lemma appends_emit e : respects appends (emit e).
Proof. intros st. now apply appends_same_db. Qed.

Lemma appends_set_cookies c : respects appends (set_cookies c).
Proof. intros st. now apply appends_same_db. Qed.

Lemma appends_select w : respects appends (select_satellites w).
Proof.
  intros st. apply appends_same_db. unfold select_satellites. cbn.
  destruct (db_fault w _ _); reflexivity.
Qed.

Lemma appends_post_login w : respects appends (post_login w).
Proof.
  intros st. apply appends_same_db. unfold post_login. cbn.
  destruct (login_reply w _); reflexivity.
Qed.

Lemma appends_http_get w ids : respects appends (http_get w ids).
Proof.
  intros st. apply appends_same_db. unfold http_get.
  destruct (cookies st); [|reflexivity]. cbn.
  destruct (get_reply w _ _); reflexivity.
Qed.

Lemma appends_insert w q : respects appends (insert w q).
Proof.
  intros st. unfold insert. cbn [emit].
  destruct q as [| r | r | norad]; try (now apply appends_same_db).
  - destruct (db_fault w _ _); now apply appends_same_db.
  - destruct (db_fault w _ _); [now apply appends_same_db|].
    cbn [snd db apply_insert]. unfold appends, insert_history.
    cbn [satellites tle_history tle_derived].
    split; [reflexivity|].
    split; [|split; [exists []; now rewrite List.app_nil_r|]].
    + destruct (existsb (history_conflict r) (tle_history (db st))); cbn [fst];
        [exists []; now rewrite List.app_nil_r | now exists [r]].
    + apply (insert_history_unique r).
  - destruct (db_fault w _ _); [now apply appends_same_db|].
    cbn [snd db apply_insert]. unfold appends, insert_derived.
    cbn [satellites tle_history tle_derived].
    split; [reflexivity|].
    split; [exists []; now rewrite List.app_nil_r|]. split; [|auto].
    destruct (existsb (derived_conflict r) (tle_derived (db st))); cbn [fst];
      [exists []; now rewrite List.app_nil_r | now exists [r]].
Qed.

(** A step that leaves the trace alone. *)
Lemma silent_same_trace st st' : trace st' = trace st -> silent st st'.
Proof.
  intros E. exists []. unfold logged. rewrite List.app_nil_r. cbn. auto.
Qed.

Lemma spends_refl st : silent st st.
Proof. now apply silent_same_trace. Qed.

Lemma spends_trans g l z g' l' z' a b c :
  spends g l z a b -> spends g' l' z' b c ->
  spends (g + g') (l + l') (z + z') a c.
Proof.
  intros (x & Hx & Hg & Hl & Hz) (y & Hy & Hg' & Hl' & Hz').
  exists (x ++ y). unfold logged, count in *.
  rewrite Hy, Hx, <- List.app_assoc, !List.filter_app, !List.length_app.
  split; [reflexivity | lia].
Qed.

Lemma spends_weaken g l z g' l' z' a b :
  spends g l z a b -> (g <= g')%nat -> (l <= l')%nat -> (z <= z')%nat ->
  spends g' l' z' a b.
Proof.
  intros (x & Hx & Hg & Hl & Hz) ? ? ?. exists x. split; [exact Hx | lia].
Qed.

Lemma silent_trans a b c : silent a b -> silent b c -> silent a c.
Proof. intros H H'. exact (spends_trans 0 0 0 0 0 0 a b c H H'). Qed.

(** A step that adds one event to the trace. *)
Lemma spends_one e st st' :
  trace st' = trace st ++ [e] ->
  spends (if is_get e then 1 else 0) (if is_login e then 1 else 0)
    (if is_retry_sleep e then 1 else 0) st st'.
Proof.
  intros E. exists [e]. split; [exact E|]. unfold count. cbn [List.filter].
  destruct (is_get e), (is_login e), (is_retry_sleep e); cbn; lia.
Qed.

Lemma silent_console l m : respects silent (console l m).
Proof. intros st. now apply (spends_one (Logged l m)). Qed.

Lemma silent_sleep_1000 : respects silent (sleep 1000).
Proof. intros st. now apply (spends_one (Slept 1000)). Qed.

Lemma silent_set_cookies c : respects silent (set_cookies c).
Proof. intros st. now apply silent_same_trace. Qed.

Lemma silent_select w : respects silent (select_satellites w).
Proof.
  intros st. apply (spends_one (Ran SelectSatellites)).
  unfold select_satellites. cbn. destruct (db_fault w _ _); reflexivity.
Qed.

Lemma silent_insert w q : respects silent (insert w q).
Proof.
  intros st. apply (spends_one (Ran q)). unfold insert. cbn.
  destruct q; try destruct (db_fault w _ _); reflexivity.
Qed.

Lemma running_same_trace st st' : trace st' = trace st -> running st st'.
Proof. intros E. exists []. unfold logged. now rewrite List.app_nil_r. Qed.

Lemma running_refl st : running st st.
Proof. now apply running_same_trace. Qed.

Lemma running_trans a b c : running a b -> running b c -> running a c.
Proof.
  intros (x & Hx & Ex) (y & Hy & Ey). exists (x ++ y). unfold logged in *.
  now rewrite Hy, Hx, <- List.app_assoc, List.filter_app, Ex, Ey.
Qed.

Lemma running_one e st st' :
  is_exit e = false -> trace st' = trace st ++ [e] -> running st st'.
Proof. intros He E. exists [e]. split; [exact E|]. cbn. now rewrite He. Qed.

Lemma running_emit e : is_exit e = false -> respects running (emit e).
Proof. intros He st. now apply (running_one e). Qed.

Lemma running_set_cookies c : respects running (set_cookies c).
Proof. intros st. now apply running_same_trace. Qed.

Lemma running_select w : respects running (select_satellites w).
Proof.
  intros st. apply (running_one (Ran SelectSatellites)); [reflexivity|].
  unfold select_satellites. cbn. destruct (db_fault w _ _); reflexivity.
Qed.

Lemma running_insert w q : respects running (insert w q).
Proof.
  intros st. apply (running_one (Ran q)); [reflexivity|]. unfold insert. cbn.
  destruct q; try destruct (db_fault w _ _); reflexivity.
Qed.

Lemma running_post_login w : respects running (post_login w).
Proof.
  intros st. apply (running_one (Sent Login)); [reflexivity|].
  unfold post_login. cbn. destruct (login_reply w _); reflexivity.
Qed.

Lemma running_http_get w ids : respects running (http_get w ids).
Proof.
  intros st. unfold http_get. destruct (cookies st); [|apply running_refl].
  apply (running_one (Sent (GetTLE ids))); [reflexivity|]. cbn.
  destruct (get_reply w _ _); reflexivity.
Qed.

(** X8.  None of the three sync jobs ever updates or deletes a stored
    row: whatever the upstream service returns and whichever statements
    the database rejects, a run leaves the tracked objects as they were,
    changes [tle_history] and [tle_derived] only by adding rows at their
    end, and keeps the keys of [tle_history] unique if they were. *)
Theorem sync_jobs_only_append w st :
  appends st (snd (Cron.fetchAndStoreTLEs w st))
  /\ appends st (snd (JobTle.fetchAndStoreTLEs w st))
  /\ forall retryCount, appends st (Final.fetchAndStoreTLEs w retryCount st).
Proof.
  split; [|split].
  - apply (respects_cron_job appends appends_refl appends_trans);
      auto using appends_emit, appends_set_cookies, appends_insert,
        appends_select, appends_post_login, appends_http_get;
      intros; apply appends_emit.
  - apply (respects_tle_job appends appends_refl appends_trans);
      auto using appends_emit, appends_set_cookies, appends_insert,
        appends_select, appends_post_login, appends_http_get;
      intros; apply appends_emit.
  - intros retryCount.
    apply (respects_final_job appends appends_refl appends_trans)
      with (k := (3 - retryCount)%nat);
      auto using appends_emit, appends_set_cookies, appends_insert,
        appends_select, appends_post_login, appends_http_get;
      intros; apply appends_emit.
Qed.

Lemma spends_bind_le {A B} g l z g' l' z' G L Z (m : M A) (k : A -> M B) :
  respects (spends g l z) m -> (forall a, respects (spends g' l' z') (k a)) ->
  (g + g' <= G)%nat -> (l + l' <= L)%nat -> (z + z' <= Z)%nat ->
  respects (spends G L Z) (bind m k).
Proof.
  intros Hm Hk HG HL HZ st. unfold bind. specialize (Hm st).
  destruct (m st) as [[a|e] st1]; cbn [snd] in *.
  - eapply spends_weaken; [eapply spends_trans; [exact Hm | apply Hk] | lia..].
  - eapply spends_weaken; [exact Hm | lia..].
Qed.

Lemma spends_try_catch_le {A} g l z g' l' z' G L Z (body : M A) handler :
  respects (spends g l z) body ->
  (forall e, respects (spends g' l' z') (handler e)) ->
  (g + g' <= G)%nat -> (l + l' <= L)%nat -> (z + z' <= Z)%nat ->
  respects (spends G L Z) (try_catch body handler).
Proof.
  intros Hm Hk HG HL HZ st. unfold try_catch. specialize (Hm st).
  destruct (body st) as [[a|e] st1]; cbn [snd] in *.
  - eapply spends_weaken; [exact Hm | lia..].
  - eapply spends_weaken; [eapply spends_trans; [exact Hm | apply Hk] | lia..].
Qed.

Lemma silent_ret {A} (a : A) : respects silent (ret a).
Proof. exact (respects_ret silent spends_refl a). Qed.

Lemma silent_bind {A B} (m : M A) (k : A -> M B) :
  respects silent m -> (forall a, respects silent (k a)) ->
  respects silent (bind m k).
Proof. exact (respects_bind silent silent_trans m k). Qed.

Lemma login_spends w : respects (spends 0 1 0) (Final.login w).
Proof.
  unfold Final.login.
  apply (spends_try_catch_le 0 1 0 0 0 0); try lia.
  - apply (spends_bind_le 0 1 0 0 0 0); try lia.
    + intros st. apply (spends_one (Sent Login)). unfold post_login. cbn.
      destruct (login_reply w _); reflexivity.
    + intros c. apply silent_bind; [apply silent_set_cookies|]. intros _.
      apply silent_bind; [apply silent_console|]. intros _. apply silent_ret.
  - intros e. apply silent_bind; [apply silent_console|]. intros _.
    apply silent_bind; [apply silent_set_cookies|]. intros _. apply silent_ret.
Qed.

Lemma no_session_spends w : respects (spends 0 1 0) (Final.no_session w).
Proof.
  unfold Final.no_session.
  apply (spends_bind_le 0 0 0 0 1 0); try lia.
  - intros st. apply spends_refl.
  - intros [c|].
    + intros st. eapply spends_weaken; [apply spends_refl | lia..].
    + apply (spends_bind_le 0 1 0 0 0 0); try lia; [apply login_spends|].
      intros ok. apply silent_ret.
Qed.

Lemma pass_spends w : respects (spends 1 0 0) (Final.pass w).
Proof.
  unfold Final.pass.
  apply (spends_bind_le 0 0 0 1 0 0); try lia; [apply silent_select|].
  intros [|row rows].
  - intros st. eapply spends_weaken; [apply silent_console | lia..].
  - apply (spends_bind_le 0 0 0 1 0 0); try lia; [apply silent_console|].
    intros _. apply (spends_bind_le 1 0 0 0 0 0); try lia.
    + intros st. unfold http_get. destruct (cookies st).
      * eapply (spends_one (Sent (GetTLE _))). cbn.
        destruct (get_reply w _ _); reflexivity.
      * eapply spends_weaken; [apply spends_refl | lia..].
    + intros body. apply silent_bind; [|intros n; apply silent_console].
      eapply (respects_while_blocks silent spends_refl silent_trans
                silent_console silent_insert); reflexivity.
Qed.

Lemma before_retry_spends retryCount err st :
  spends 0 0 1 st (before_retry retryCount err st).
Proof.
  unfold before_retry.
  match goal with
  | |- spends 0 0 1 st (snd (?m st)) => assert (respects (spends 0 0 1) m) as H
  end; [|apply H].
  apply (spends_bind_le 0 0 0 0 0 1); try lia; [apply silent_console|].
  intros _. apply (spends_bind_le 0 0 0 0 0 1); try lia; [apply silent_console|].
  intros _. apply (spends_bind_le 0 0 0 0 0 1); try lia; [apply silent_set_cookies|].
  intros _ st0. now apply (spends_one (Slept 30000)).
Qed.

Lemma on_give_up_silent retryCount err st :
  silent st (on_give_up retryCount err st).
Proof.
  unfold on_give_up.
  match goal with
  | |- silent st (snd (?m st)) => assert (respects silent m) as H
  end; [|apply H].
  apply silent_bind; [apply silent_console|]. intros _. apply silent_console.
Qed.

Lemma final_job_spends w :
  forall k retryCount st,
    (3 - retryCount = k)%nat ->
    spends (S k) (S k) k st (Final.fetchAndStoreTLEs w retryCount st).
Proof.
  induction k as [|k IH]; intros retryCount st Hk;
    pose proof (no_session_spends w st) as Hs;
    destruct (Final.no_session w st) as [[[|]|e] st1] eqn:Es; cbn [snd] in Hs.
  all: try (rewrite (final_job_skips w retryCount st st1 Es);
            eapply spends_weaken;
            [eapply spends_trans; [exact Hs | apply silent_console] | lia..]).
  all: try (rewrite (final_job_stops w retryCount st e st1 Es);
            eapply spends_weaken; [exact Hs | lia..]).
  all: pose proof (pass_spends w st1) as Hp;
    destruct (Final.pass w st1) as [[u|err] st2] eqn:Ep; cbn [snd] in Hp.
  all: try (rewrite (final_job_done w retryCount st st1 u st2 Es Ep);
            eapply spends_weaken;
            [eapply spends_trans; [exact Hs | exact Hp] | lia..]).
  - rewrite (failed_pass_gives_up w retryCount st st1 err st2 ltac:(lia) Es Ep).
    eapply spends_weaken;
      [eapply spends_trans;
       [exact Hs | eapply spends_trans; [exact Hp | apply on_give_up_silent]]
      | lia..].
  - rewrite (failed_pass_is_retried w retryCount st st1 err st2 ltac:(lia) Es Ep).
    eapply spends_weaken;
      [eapply spends_trans;
       [exact Hs
       | eapply spends_trans;
         [exact Hp
         | eapply spends_trans;
           [apply before_retry_spends | apply (IH (S retryCount)); lia]]]
      | lia..].
Qed.

(** X9.  A run of the multi-tenant job is bounded, whatever the upstream
    service and the database do: started as [fetchAndStoreTLEs(retryCount)]
    it sends at most [4 - retryCount] requests for element sets and as many
    logins, and waits thirty seconds at most [3 - retryCount] times (one
    request and one login when [retryCount] is above 3); and it never
    closes the pool nor ends the process. *)
Theorem multi_tenant_job_is_bounded w retryCount st :
  spends (S (3 - retryCount)) (S (3 - retryCount)) (3 - retryCount) st
    (Final.fetchAndStoreTLEs w retryCount st)
  /\ running st (Final.fetchAndStoreTLEs w retryCount st).
Proof.
  split; [now apply final_job_spends|].
  apply (respects_final_job running running_refl running_trans)
    with (k := (3 - retryCount)%nat);
    auto using running_set_cookies, running_insert, running_select,
      running_post_login, running_http_get;
    intros; now apply running_emit.
Qed.

(** The statement guarded by [try]/[catch] in the cron job returns. *)
Lemma caught_returns (body : M unit) (handler : string -> Message) st :
  fst (try_catch body (fun err => console Error (handler err)) st) = Returned tt.
Proof.
  unfold try_catch. destruct (body st) as [[[]|e] st1]; reflexivity.
Qed.

Lemma count_app p (a b : list Event) :
  count p (a ++ b) = (count p a + count p b)%nat.
Proof. unfold count. now rewrite List.filter_app, List.length_app. Qed.

(** The part of the cron job that runs once a session is at hand. *)
Lemma cron_job_with_session w st :
  exists st' evs,
    finally
      (try_catch
         (bind (select_satellites w)
            (fun rows =>
               match rows with
               | [] => console Log NoSatellites
               | _ =>
                   bind (console Log (Fetching (List.length rows)))
                     (fun _ =>
                        bind (Cron.for_rows w rows 0)
                          (fun storedCount => console Log (JobComplete storedCount)))
               end))
         (fun err => console Error (JobFailed err)))
      (bind (emit PoolEnded) (fun _ => emit (Exited 0))) st
    = (Returned tt, st')
    /\ logged st st' (evs ++ [PoolEnded; Exited 0])
    /\ List.filter is_exit evs = [].
Proof.
  unfold finally.
  match goal with
  | |- context [try_catch ?b ?h st] =>
      pose proof (caught_returns b JobFailed st) as Hr;
      pose proof (respects_cron_body running running_refl running_trans
                    (fun l m => running_emit (Logged l m) eq_refl)
                    (running_emit (Slept 1000) eq_refl)
                    running_insert running_select running_http_get w st) as Hb;
      destruct (try_catch b h st) as [o st1]
  end.
  cbn [fst snd] in Hr, Hb. subst o. destruct Hb as (evs & Hl & He).
  eexists. exists evs. split; [reflexivity|]. split; [|exact He].
  unfold logged in *. cbn. rewrite Hl, <- !List.app_assoc. reflexivity.
Qed.

(** X10.  The cron job never throws.  When a session is at hand -- one
    is held, or credentials are configured and the login request gets a
    reply -- the run ends by closing the pool and exiting with status 0,
    whatever failed in between, and does neither before.  Otherwise it
    returns without running a statement, without closing the pool and
    without ending the process. *)
Theorem cron_job_exits_with_status_0 w st :
  exists st',
    Cron.fetchAndStoreTLEs w st = (Returned tt, st')
    /\ if session_available w st
       then exists evs,
              logged st st' (evs ++ [PoolEnded; Exited 0])
              /\ List.filter is_exit evs = []
       else db st' = db st
            /\ running st st'
            /\ count is_ran (trace st') = count is_ran (trace st).
Proof.
  unfold Cron.fetchAndStoreTLEs, session_available.
  match goal with
  | |- context [finally ?b ?c] => set (rest := finally b c)
  end.
  assert (forall s, exists s' evs,
             rest s = (Returned tt, s')
             /\ logged s s' (evs ++ [PoolEnded; Exited 0])
             /\ List.filter is_exit evs = []) as Hrest
    by (intros s; apply cron_job_with_session).
  clearbody rest.
  unfold bind at 1. cbn [console emit]. unfold bind at 1. cbn [get_cookies cookies].
  destruct (cookies st) as [c|] eqn:Ec.
  - unfold bind, ret. cbn [negb].
    match goal with |- context [rest ?s] => destruct (Hrest s) as (s' & evs & E & Hl & He) end.
    exists s'. split; [exact E|]. exists (Logged Log JobStarted :: evs).
    split; [|exact He]. unfold logged in *. cbn [trace] in Hl.
    rewrite Hl, <- List.app_assoc. reflexivity.
  - unfold Cron.loginToSpaceTrack. destruct (credentials w); cbn [negb andb].
    + unfold bind at 1, try_catch, bind at 1, post_login. cbn [emit trace].
      rewrite count_app. cbn [count List.filter is_sent List.length].
      rewrite Nat.add_0_r.
      destruct (login_reply w (count is_sent (trace st))) as [c|].
      * unfold bind, set_cookies, console, emit, ret. cbn [negb cookies db trace].
        match goal with |- context [rest ?s] => destruct (Hrest s) as (s' & evs & E & Hl & He) end.
        exists s'. split; [exact E|].
        exists (Logged Log JobStarted :: Sent Login :: Logged Log LoginSuccessful :: evs).
        split; [|exact He]. unfold logged in *. cbn [trace] in Hl.
        rewrite Hl, <- !List.app_assoc. reflexivity.
      * unfold bind, set_cookies, console, emit, ret. cbn [negb cookies db trace].
        eexists. split; [reflexivity|]. cbn [db trace].
        split; [reflexivity|]. split.
        -- eexists. split; [unfold logged; cbn [trace]; rewrite <- !List.app_assoc;
                            reflexivity | reflexivity].
        -- rewrite !count_app. cbn. lia.
    + unfold bind, console, emit, ret. cbn [negb cookies db trace].
      eexists. split; [reflexivity|]. cbn [db trace].
      split; [reflexivity|]. split.
      * eexists. split; [unfold logged; cbn [trace]; rewrite <- !List.app_assoc;
                         reflexivity | reflexivity].
      * rewrite !count_app. cbn. lia.
Qed.

End JobInvariants.

(** ** The job in TLE format *)

Section TleJobFacts.

Import Job Store.

Lemma In_insert_history r h t :
  List.In r (fst (insert_history h t)) -> List.In r t \/ r = h.
Proof.
  unfold insert_history. destruct (existsb (history_conflict h) t); cbn [fst].
  - auto.
  - intros H. apply List.in_app_or in H as [H|[H|[]]]; auto.
Qed.

(** The history rows a store of one element set may add. *)
Lemma store_adds_its_row w norad name line1 line2 epochDate userId derived st r :
  List.In r (tle_history (db (snd (store w norad name line1 line2 epochDate
                                     userId derived st)))) ->
  List.In r (tle_history (db st))
  \/ exists epoch, r = history_row norad name line1 line2 epoch userId.
Proof.
  unfold store. destruct epochDate as [epoch|].
  - unfold bind, insert. cbn [emit].
    destruct (db_fault w _ _); cbn [snd db trace]; [auto|].
    destruct (db_fault w _ _); cbn [snd db apply_insert tle_history];
      intros H; apply In_insert_history in H as [H|H]; eauto.
  - unfold insert. cbn. auto.
Qed.

(** X11.  When the reply to the job in TLE format has exactly two
    non-blank lines, the second one is stored as both element lines and
    the first one as the name: every history row the iteration adds has
    the first line in [name] and the second line in [tle_line1] and in
    [tle_line2]. *)
Theorem two_line_reply_stores_second_line_twice w norad userId st body a b r :
  cookies st <> None ->
  get_reply w (count is_sent (trace st)) norad = Some body ->
  nonblank_lines (trim body) = [a; b] ->
  List.In r (tle_history (db (snd (JobTle.fetch_one w norad userId st)))) ->
  List.In r (tle_history (db st))
  \/ (h_norad_id r = norad /\ h_user_id r = userId
      /\ h_name r = a /\ h_tle_line1 r = b /\ h_tle_line2 r = b).
Proof.
  intros Hc Hg Hl.
  destruct (cookies st) as [c|] eqn:Ec; [clear Hc | congruence].
  unfold JobTle.fetch_one, bind at 1, http_get. rewrite Ec. cbn [emit].
  rewrite Hg. cbv zeta.
  destruct (nonempty (trim body)) eqn:En.
  - cbn [negb]. rewrite Hl. cbn [List.length Nat.ltb Nat.leb].
    unfold JobTle.third_or_second.
    cbn [at_index List.nth_error present Derive.text].
    destruct (Derive.calculateDerived_cron (Some b) (Some b)) as [derived|].
    + unfold bind at 1.
      match goal with
      | |- context [store w norad a b b ?e userId derived ?s] =>
          pose proof (store_adds_its_row w norad a b b e userId derived s r) as Hs;
          destruct (store w norad a b b e userId derived s) as [[u|err] s1]
      end; cbn [snd ret] in *; intros H; destruct (Hs H) as [H0|[epoch ->]];
        auto; right; cbn; auto.
    + cbn. auto.
  - destruct (trim body); [|discriminate En]. discriminate Hl.
Qed.

Lemma two_line_reply_stores_second_line_twice_witness :
  let st' := snd (JobTle.fetch_one TleSamples.two_line_world "25544" "user_1"
                    JobSamples.start_with_session) in
  List.map h_name (tle_history (db st')) = [Samples.iss_line1]
  /\ forall r, List.In r (tle_history (db st')) ->
       List.In r (tle_history (db JobSamples.start_with_session))
       \/ (h_norad_id r = "25544" /\ h_user_id r = "user_1"
           /\ h_name r = Samples.iss_line1
           /\ h_tle_line1 r = Samples.iss_line2
           /\ h_tle_line2 r = Samples.iss_line2).
Proof.
  split; [vm_compute; reflexivity|]. intros r.
  apply (two_line_reply_stores_second_line_twice TleSamples.two_line_world
           "25544" "user_1" JobSamples.start_with_session
           TleSamples.two_line_reply Samples.iss_line1 Samples.iss_line2 r).
  - discriminate.
  - reflexivity.
  - vm_compute. reflexivity.
Defined.

End TleJobFacts.

(** ** The user map of the multi-tenant job *)

Section UserMapFacts.

Import Job Job.Final.

Lemma find_filter_other k k' (m : list (string * string)) :
  (k =? k')%string = false ->
  List.find (fun e => (k =? fst e)%string)
    (List.filter (fun e => negb (k' =? fst e)%string) m)
  = List.find (fun e => (k =? fst e)%string) m.
Proof.
  intros Hk. induction m as [|e m IH]; [reflexivity|].
  cbn [List.filter List.find].
  destruct (String.eqb_spec k' (fst e)) as [E|E]; cbn [negb].
  - rewrite <- E, Hk. exact IH.
  - cbn [List.find]. now rewrite IH.
Qed.

Lemma lookup_assign k k' v m :
  lookup k (assign k' v m) = if (k =? k')%string then Some v else lookup k m.
Proof.
  unfold lookup, assign. cbn [List.find fst].
  destruct (k =? k')%string eqn:E; [reflexivity|].
  now rewrite find_filter_other.
Qed.

Lemma build_userMap_snoc rows r :
  build_userMap (rows ++ [r]) = assign (fst r) (snd r) (build_userMap rows).
Proof. unfold build_userMap. now rewrite List.fold_left_app. Qed.

(** X12.  The user map of the multi-tenant job holds one user per object:
    looking an object up gives the user of the last row of the SELECT that
    names it, so that an object tracked by several users is stored for the
    last of them only. *)
Theorem userMap_keeps_the_last_row k rows :
  lookup k (build_userMap rows)
  = option_map snd
      (List.find (fun r => (k =? fst r)%string) (List.rev rows)).
Proof.
  induction rows as [|r rows IH] using List.rev_ind; [reflexivity|].
  rewrite build_userMap_snoc, lookup_assign, List.rev_app_distr.
  cbn [List.rev List.app List.find].
  destruct (k =? fst r)%string; [reflexivity | exact IH].
Qed.

End UserMapFacts.

(** ** The backfill script *)

Section BackfillFacts.

Import Store StoreSpec BackfillSpec.

Lemma upsert_derived_cases r t :
  fst (upsert_derived r t)
  = if existsb (backfill_conflict r) t then List.map (overwrite r) t else t ++ [r].
Proof.
  unfold upsert_derived. fold (overwrite r).
  destruct (existsb (backfill_conflict r) t); reflexivity.
Qed.

(** Without a rejected statement the loop runs every statement. *)
Lemma for_rows_no_fault rows :
  forall issued count t,
    Backfill.for_rows no_fault rows issued count t
    = (Some (count + List.length (written rows))%nat,
       upsert_all (written rows) t).
Proof.
  induction rows as [|row rows IH]; intros issued count t;
    cbn [Backfill.for_rows written List.flat_map].
  - cbn. now rewrite Nat.add_0_r.
  - fold (written rows).
    destruct (Derive.calculateDerived _ _) as [derived|]; cbn [List.app].
    + cbn [no_fault]. rewrite IH. cbn [List.length upsert_all List.fold_left].
      f_equal. f_equal. lia.
    + apply IH.
Qed.

Lemma backfill_conflict_trans a b c :
  backfill_conflict a b = true -> backfill_conflict b c = true ->
  backfill_conflict a c = true.
Proof.
  unfold backfill_conflict. intros H H'.
  apply andb_prop in H as [H1 H2]. apply andb_prop in H' as [H1' H2'].
  apply String.eqb_eq in H1, H1'. apply Z.eqb_eq in H2, H2'.
  rewrite H1, H1', H2, H2', String.eqb_refl, Z.eqb_refl. reflexivity.
Qed.

Lemma backfill_conflict_sym a b : backfill_conflict a b = backfill_conflict b a.
Proof.
  unfold backfill_conflict. now rewrite String.eqb_sym, Z.eqb_sym.
Qed.

(** The statement changes neither the key nor the user of a stored row. *)
Lemma overwrite_key r x :
  d_norad_id (overwrite r x) = d_norad_id x
  /\ d_epoch (overwrite r x) = d_epoch x
  /\ d_user_id (overwrite r x) = d_user_id x.
Proof. unfold overwrite. destruct (backfill_conflict r x); auto. Qed.

Lemma conflict_overwrite r' r x :
  backfill_conflict r' (overwrite r x) = backfill_conflict r' x.
Proof.
  unfold backfill_conflict.
  destruct (overwrite_key r x) as (-> & -> & _). reflexivity.
Qed.

Lemma overwrite_all_key rs :
  forall x,
    d_norad_id (overwrite_all rs x) = d_norad_id x
    /\ d_epoch (overwrite_all rs x) = d_epoch x
    /\ d_user_id (overwrite_all rs x) = d_user_id x.
Proof.
  induction rs as [|r rs IH]; intros x; cbn [overwrite_all List.fold_left]; [auto|].
  fold (overwrite_all rs (overwrite r x)).
  destruct (IH (overwrite r x)) as (-> & -> & ->). apply overwrite_key.
Qed.

Lemma existsb_conflict_map r' r t :
  existsb (backfill_conflict r') (List.map (overwrite r) t)
  = existsb (backfill_conflict r') t.
Proof.
  induction t as [|x t IH]; cbn [List.map existsb]; [reflexivity|].
  now rewrite conflict_overwrite, IH.
Qed.

(** A key once stored stays stored. *)
Lemma upsert_keeps_keys r' r t :
  existsb (backfill_conflict r') t = true ->
  existsb (backfill_conflict r') (fst (upsert_derived r t)) = true.
Proof.
  intros H. rewrite upsert_derived_cases.
  destruct (existsb (backfill_conflict r) t).
  - now rewrite existsb_conflict_map.
  - rewrite existsb_app, H. reflexivity.
Qed.

Lemma upsert_stores_key r t :
  existsb (backfill_conflict r) (fst (upsert_derived r t)) = true.
Proof.
  rewrite upsert_derived_cases.
  destruct (existsb (backfill_conflict r) t) eqn:E.
  - now rewrite existsb_conflict_map.
  - rewrite existsb_app. cbn [existsb].
    now rewrite backfill_conflict_refl, orb_true_r.
Qed.

Lemma upsert_all_keeps_keys rs :
  forall r t,
    existsb (backfill_conflict r) t = true ->
    existsb (backfill_conflict r) (upsert_all rs t) = true.
Proof.
  induction rs as [|r0 rs IH]; intros r t H; cbn [upsert_all List.fold_left];
    [exact H|].
  apply IH. now apply upsert_keeps_keys.
Qed.

(** After a run every written key is stored. *)
Lemma upsert_all_covers rs :
  forall t r, List.In r rs ->
    existsb (backfill_conflict r) (upsert_all rs t) = true.
Proof.
  induction rs as [|r0 rs IH]; intros t r Hin; [destruct Hin|].
  cbn [upsert_all List.fold_left]. destruct Hin as [<-|Hin].
  - apply upsert_all_keeps_keys, upsert_stores_key.
  - now apply IH.
Qed.

(** On a table that holds every written key, the run only overwrites. *)
Lemma upsert_all_covered rs :
  forall t,
    (forall r, List.In r rs -> existsb (backfill_conflict r) t = true) ->
    upsert_all rs t = List.map (overwrite_all rs) t.
Proof.
  induction rs as [|r rs IH]; intros t H; cbn [upsert_all List.fold_left].
  - symmetry. apply List.map_id.
  - rewrite upsert_derived_cases, (H r (or_introl eq_refl)).
    fold (upsert_all rs (List.map (overwrite r) t)).
    rewrite IH.
    + rewrite List.map_map. reflexivity.
    + intros r' Hr'. rewrite existsb_conflict_map. apply H. now right.
Qed.

Lemma upsert_all_snoc rs r t :
  upsert_all (rs ++ [r]) t = fst (upsert_derived r (upsert_all rs t)).
Proof. unfold upsert_all. now rewrite List.fold_left_app. Qed.

Lemma overwrite_all_snoc rs r x :
  overwrite_all (rs ++ [r]) x = overwrite r (overwrite_all rs x).
Proof. unfold overwrite_all. now rewrite List.fold_left_app. Qed.

Lemma overwrite_self r : overwrite r r = r.
Proof.
  unfold overwrite. rewrite backfill_conflict_refl. now destruct r.
Qed.

Lemma overwrite_other r x : backfill_conflict r x = false -> overwrite r x = x.
Proof. unfold overwrite. now intros ->. Qed.

(** A row that conflicts with nothing stored conflicts with none of the
    rows written before it. *)
Lemma overwrite_all_fresh rs :
  forall t r,
    existsb (backfill_conflict r) (upsert_all rs t) = false ->
    overwrite_all rs r = r.
Proof.
  induction rs as [|r0 rs IH] using List.rev_ind; intros t r H; [reflexivity|].
  rewrite overwrite_all_snoc. rewrite upsert_all_snoc in H.
  assert (existsb (backfill_conflict r) (upsert_all rs t) = false) as H0.
  { destruct (existsb (backfill_conflict r) (upsert_all rs t)) eqn:E; [|reflexivity].
    now rewrite (upsert_keeps_keys r r0 _ E) in H. }
  rewrite (IH t r H0). apply overwrite_other.
  destruct (backfill_conflict r0 r) eqn:E; [|reflexivity].
  pose proof (upsert_stores_key r0 (upsert_all rs t)) as Hs.
  apply List.existsb_exists in Hs as (y & Hy & Hc).
  assert (existsb (backfill_conflict r) (fst (upsert_derived r0 (upsert_all rs t)))
          = true) as Hr.
  { apply List.existsb_exists. exists y. split; [exact Hy|].
    apply (backfill_conflict_trans r r0 y); [|exact Hc].
    now rewrite backfill_conflict_sym. }
  congruence.
Qed.

(** Every stored row already has what the statements of the run would
    write into it. *)
Lemma upsert_all_settled rs :
  forall t x, List.In x (upsert_all rs t) -> overwrite_all rs x = x.
Proof.
  induction rs as [|r rs IH] using List.rev_ind; intros t x Hin; [reflexivity|].
  rewrite overwrite_all_snoc. rewrite upsert_all_snoc, upsert_derived_cases in Hin.
  destruct (existsb (backfill_conflict r) (upsert_all rs t)) eqn:E.
  - apply List.in_map_iff in Hin as (y & <- & Hy).
    destruct (backfill_conflict r y) eqn:Ec.
    + unfold overwrite at 1.
      assert (backfill_conflict r (overwrite_all rs (overwrite r y)) = true) as ->.
      { unfold backfill_conflict.
        destruct (overwrite_all_key rs (overwrite r y)) as (-> & -> & _).
        fold (backfill_conflict r (overwrite r y)).
        now rewrite conflict_overwrite. }
      destruct (overwrite_all_key rs (overwrite r y)) as (-> & -> & ->).
      unfold overwrite. rewrite Ec. reflexivity.
    + rewrite (overwrite_other r y Ec), (IH t y Hy). now apply overwrite_other.
  - apply List.in_app_or in Hin as [Hin|[<-|[]]].
    + rewrite (IH t x Hin). apply overwrite_other.
      destruct (backfill_conflict r x) eqn:Ec; [|reflexivity].
      assert (existsb (backfill_conflict r) (upsert_all rs t) = true) as Hr
        by (apply List.existsb_exists; eauto).
      congruence.
    + rewrite (overwrite_all_fresh rs t r E). apply overwrite_self.
Qed.

Lemma upsert_all_idempotent rs t :
  upsert_all rs (upsert_all rs t) = upsert_all rs t.
Proof.
  rewrite (upsert_all_covered rs (upsert_all rs t)).
  - rewrite <- (List.map_id (upsert_all rs t)) at 2.
    apply List.map_ext_in. intros x Hx. now apply (upsert_all_settled rs t).
  - intros r Hr. now apply upsert_all_covers.
Qed.

(** X13.  Run again on the same rows, the backfill script changes
    nothing: when no statement is rejected, a run ends with status 0 and
    reports one record for each history row it can derive, and a second
    run over the same rows of [tle_history] reports the same number and
    leaves the database exactly as the first one left it. *)
Theorem backfill_script_is_idempotent rows db :
  let first := Backfill.populateDerived (Some rows) no_fault db in
  first
  = (0, Some (List.length (written rows)),
     {| satellites := satellites db; tle_history := tle_history db;
        tle_derived := upsert_all (written rows) (tle_derived db) |})
  /\ Backfill.populateDerived (Some rows) no_fault (snd first) = first.
Proof.
  cbv zeta. unfold Backfill.populateDerived. rewrite for_rows_no_fault.
  cbn [Nat.add snd satellites tle_history tle_derived].
  split; [reflexivity|].
  rewrite for_rows_no_fault, upsert_all_idempotent. reflexivity.
Qed.

(** What the loop has done when it stops, whichever statements are
    rejected. *)
Lemma for_rows_cases fault rows :
  forall issued count t,
    exists k,
      snd (Backfill.for_rows fault rows issued count t)
      = upsert_all (List.firstn k (written rows)) t
      /\ (fst (Backfill.for_rows fault rows issued count t)
          = Some (count + List.length (written rows))%nat
          /\ k = List.length (written rows)
          \/ fst (Backfill.for_rows fault rows issued count t) = None
             /\ exists r, List.nth_error (written rows) k = Some r
                          /\ fault (issued + k)%nat r = true).
Proof.
  induction rows as [|row rows IH]; intros issued count t;
    cbn [Backfill.for_rows written List.flat_map].
  - exists 0%nat. cbn. rewrite Nat.add_0_r. auto.
  - fold (written rows).
    destruct (Derive.calculateDerived _ _) as [derived|]; cbn [List.app].
    + destruct (fault issued (backfill_row row derived)) eqn:Ef.
      * exists 0%nat. cbn [fst snd List.firstn upsert_all List.fold_left].
        split; [reflexivity|]. right. split; [reflexivity|].
        exists (backfill_row row derived). rewrite Nat.add_0_r. auto.
      * destruct (IH (S issued) (S count)
                    (fst (upsert_derived (backfill_row row derived) t)))
          as (k & Ht & Hk).
        exists (S k). cbn [List.firstn upsert_all List.fold_left List.length].
        split; [exact Ht|].
        destruct Hk as [[Ho ->]|[Ho (r & Hr & Hf)]].
        -- left. split; [rewrite Ho; f_equal; lia | reflexivity].
        -- right. split; [exact Ho|]. exists r. cbn [List.nth_error].
           split; [exact Hr|]. now rewrite Nat.add_succ_r.
    + apply IH.
Qed.

(** X14.  The backfill script has no transaction around its loop: it
    ends with status 0 after running the statement of every derivable row,
    or with status 1 at the first statement the database rejects, and in
    both cases the table holds the effect of the statements run so far,
    in order; [satellites] and [tle_history] are never written. *)
Theorem backfill_script_keeps_what_it_wrote rows fault db :
  exists k,
    let '(status, count, db') := Backfill.populateDerived (Some rows) fault db in
    satellites db' = satellites db
    /\ tle_history db' = tle_history db
    /\ tle_derived db'
       = upsert_all (List.firstn k (written rows)) (tle_derived db)
    /\ (status = 0 /\ count = Some (List.length (written rows))
        /\ k = List.length (written rows)
        \/ status = 1 /\ count = None
           /\ exists r, List.nth_error (written rows) k = Some r
                        /\ fault k r = true).
Proof.
  destruct (for_rows_cases fault rows 0 0 (tle_derived db)) as (k & Ht & Hk).
  exists k. unfold Backfill.populateDerived.
  destruct (Backfill.for_rows fault rows 0 0 (tle_derived db)) as [[count|] t];
    cbn [fst snd] in Ht, Hk; cbn [satellites tle_history tle_derived];
    (split; [reflexivity|]); (split; [reflexivity|]); (split; [exact Ht|]).
  - destruct Hk as [[Ho ->]|[Ho _]]; [|discriminate Ho].
    left. auto.
  - destruct Hk as [[Ho _]|[_ Hr]]; [discriminate Ho|]. right. auto.
Qed.

End BackfillFacts.

(** ** The lines the jobs parse *)

Section LineFacts.

Import Job JobSamples JobSpec.

Lemma cron_loop_visits_every_row_witness :
  cookies start_with_session <> None
  /\ exists n st',
       Cron.for_rows per_object_world (Job.selected (Store.satellites two_objects))
         0 start_with_session = (Returned n, st')
       /\ cookies st' = cookies start_with_session
       /\ List.filter is_get (trace st')
          = List.filter is_get (trace start_with_session)
            ++ requests_of (Job.selected (Store.satellites two_objects)).
Proof.
  split; [discriminate|].
  apply (cron_loop_visits_every_row per_object_world
           (Job.selected (Store.satellites two_objects)) 0%nat start_with_session).
  discriminate.
Defined.

Lemma rev_string_involutive s : rev_string (rev_string s) = s.
Proof.
  unfold rev_string.
  now rewrite list_ascii_of_string_of_list_ascii, List.rev_involutive,
    string_of_list_ascii_of_string.
Qed.

Lemma trimStart_idempotent s : trimStart (trimStart s) = trimStart s.
Proof.
  induction s as [|c r IH]; [reflexivity|]. cbn [trimStart].
  destruct (is_ws c) eqn:E; [exact IH|]. cbn [trimStart]. now rewrite E.
Qed.

Lemma trimEnd_idempotent s : trimEnd (trimEnd s) = trimEnd s.
Proof.
  unfold trimEnd. now rewrite rev_string_involutive, trimStart_idempotent.
Qed.

(** Dropping white space at the head of a text that ends with another
    character keeps that character. *)
Lemma trimStart_keeps_last l c :
  is_ws c = false ->
  exists l', trimStart (string_of_list_ascii (l ++ [c]))
             = string_of_list_ascii (l' ++ [c]).
Proof.
  intros Hc. induction l as [|a l IH].
  - exists []. cbn. now rewrite Hc.
  - cbn [List.app string_of_list_ascii trimStart].
    destruct (is_ws a); [exact IH|]. now exists (a :: l).
Qed.

(** Dropping white space at the end keeps a first character that is not
    white space. *)
Lemma trimEnd_keeps_first c r :
  is_ws c = false -> exists r', trimEnd (String c r) = String c r'.
Proof.
  intros Hc. unfold trimEnd, rev_string at 2.
  cbn [list_ascii_of_string List.rev].
  destruct (trimStart_keeps_last (List.rev (list_ascii_of_string r)) c Hc)
    as (l' & ->).
  unfold rev_string.
  rewrite list_ascii_of_string_of_list_ascii, List.rev_app_distr.
  cbn [List.rev List.app string_of_list_ascii]. eauto.
Qed.

Lemma trimStart_head s :
  trimStart s = EmptyString
  \/ exists c r, trimStart s = String c r /\ is_ws c = false.
Proof.
  induction s as [|c r IH]; [now left|]. cbn [trimStart].
  destruct (is_ws c) eqn:E; [exact IH|]. right. eauto.
Qed.

Lemma trim_idempotent s : trim (trim s) = trim s.
Proof.
  unfold trim.
  assert (trimStart (trimEnd (trimStart s)) = trimEnd (trimStart s)) as ->.
  { destruct (trimStart_head s) as [->|(c & r & -> & Hc)]; [reflexivity|].
    destruct (trimEnd_keeps_first c r Hc) as (r' & ->).
    cbn [trimStart]. now rewrite Hc. }
  apply trimEnd_idempotent.
Qed.

(** X16.  Every line the sync jobs take from a reply is non-empty and has
    no white space left at either end, carriage returns included,
    whatever the reply holds. *)
Theorem nonblank_lines_are_trimmed text :
  List.Forall (fun l => nonempty l = true /\ trim l = l) (nonblank_lines text).
Proof.
  apply List.Forall_forall. intros l Hl. unfold nonblank_lines in Hl.
  apply List.filter_In in Hl as [Hm Hn]. split; [exact Hn|].
  apply List.in_map_iff in Hm as (x & <- & _). apply trim_idempotent.
Qed.

End LineFacts.

(** ** The epoch set with [setSeconds] *)

Section EpochSecondsFacts.

Import Epoch.

Lemma TimeClip_some t u : TimeClip t = Some u -> u = t.
Proof. unfold TimeClip. destruct (Z.abs t <=? _); congruence. Qed.

(** X17.  The epoch the multi-tenant job and the job in TLE format
    compute, with [setSeconds], is a whole number of seconds whenever it
    is a valid date: what the day of year holds below one second is
    dropped. *)
Theorem epochDate_has_whole_seconds line1 t :
  epochDate line1 = Some t -> t mod 1000 = 0.
Proof.
  unfold epochDate, makeDate, toInteger. cbv zeta.
  destruct (utcYear (fullYear line1)) as [y|]; [|discriminate].
  destruct (isFinite (add (lit "0") (mul (rem (dayOfYear line1) (lit "1"))
                                       (lit "86400")))); [|discriminate].
  cbn [option_map].
  destruct (TimeClip (DayFromYear y * msPerDay)); [|discriminate].
  destruct (isFinite _); [|discriminate].
  destruct (TimeClip ((DayFromYear y + _ - 1) * msPerDay)) as [d|] eqn:Ed;
    [|discriminate].
  intros H. apply TimeClip_some in H, Ed. subst t d. unfold msPerDay.
  match goal with
  | |- (?a * 86400000 + ?s * 1000) mod 1000 = 0 =>
      replace (a * 86400000 + s * 1000) with ((a * 86400 + s) * 1000) by ring
  end.
  apply Z.mod_mul. discriminate.
Qed.

Lemma epochDate_has_whole_seconds_witness :
  exists t, epochDate Samples.iss_line1 = Some t /\ t mod 1000 = 0.
Proof.
  eexists. split; [vm_compute; reflexivity|].
  apply (epochDate_has_whole_seconds Samples.iss_line1). vm_compute. reflexivity.
Defined.

End EpochSecondsFacts.
